(** * frequenz-client-base: the one-shot call wrapper and the stream broadcaster

    A shallow embedding of [frequenz/client/base/client.py] (the function
    [call_stub_method] and the life cycle of [BaseApiClient]) and of
    [frequenz/client/base/streaming.py] (the class [GrpcStreamBroadcaster]),
    with the properties the specification states about them and further
    properties that the code has. *)

From Stdlib Require Import ZArith QArith String Lia.
From stdpp Require Import base option list.

(** ** [client.py]: [call_stub_method] *)

Module Client.

(** The transport error of [grpc.aio]: status code, details and debug string. *)
Record AioRpcError := {
  code : string;
  details : string;
  debug_error_string : string;
}.

(** What a Python call can raise here.  [ClientNotConnected] and
    [ApiClientError] are the two classes [client.py] imports from
    [exception.py]; every other exception is [Other]. *)
Inductive error :=
| ClientNotConnected (server_url operation : string)
| ApiClientError (server_url operation : string) (grpc_error : AioRpcError)
| Grpc (grpc_error : AioRpcError)
| Other (name : string).

(** Modelled from the spec: [exception.py] is not among the sources, so
    [ApiClientError.from_grpc_error] is the domain error "carrying the
    endpoint, operation name, and the transport status/detail" (section 4.3):
    it keeps the three keyword arguments it is given. *)
Definition from_grpc_error (server_url operation : string)
    (grpc_error : AioRpcError) : error :=
  ApiClientError server_url operation grpc_error.

(** The outcome of a call: a value or a raised exception. *)
Inductive outcome (A : Type) :=
| Returns (a : A)
| Throws (e : error).
Arguments Returns {A} a.
Arguments Throws {A} e.

Section call_stub_method.

(** [World] is whatever the awaited stub call can change (the server, the
    wire, a mock's call counter): an awaitable is a function of the world. *)
Context {Channel StubT StubOutT TransformOutT World : Type}.

(** The fields of [BaseApiClient] that [call_stub_method] reads. *)
Record BaseApiClient := {
  _server_url : string;
  _channel : option Channel;
  _stub : option StubT;
}.

Definition server_url (self : BaseApiClient) : string := _server_url self.

Definition is_connected (self : BaseApiClient) : bool :=
  match _channel self with
  | Some _ => true
  | None => false
  end.

(** [caller] stands for [inspect.stack()[1][3]], the name of the calling
    function, which is what [method_name] defaults to. *)
Definition call_stub_method (client : BaseApiClient)
    (stub_method : World -> outcome StubOutT * World)
    (method_name : option string)
    (transform : option (StubOutT -> outcome TransformOutT))
    (caller : string) (w : World)
  : outcome (StubOutT + TransformOutT) * World :=
  let method_name :=
    match method_name with
    | None => caller
    | Some name => name
    end in
  if negb (is_connected client) then
    (Throws (ClientNotConnected (server_url client) method_name), w)
  else
    match stub_method w with
    | (Throws (Grpc grpc_error), w') =>
        (Throws (from_grpc_error (server_url client) method_name grpc_error), w')
    | (Throws e, w') => (Throws e, w')
    | (Returns response, w') =>
        match transform with
        | None => (Returns (inl response), w')
        | Some f =>
            match f response with
            | Returns out => (Returns (inr out), w')
            | Throws e => (Throws e, w')
            end
        end
    end.

(** The operation name reported in errors. *)
Definition operation (method_name : option string) (caller : string) : string :=
  default caller method_name.

(** C9. A disconnected client gets [ClientNotConnected] with the endpoint
    and the operation name, whatever the stub method is and with the world
    untouched (the stub method is not invoked); a connected client awaits
    the call, a transport error becomes the domain error with endpoint,
    operation name and the transport error, and a response is returned as
    it is without [transform] and transformed with it. *)
Theorem call_stub_method_contract (client : BaseApiClient)
    (stub_method : World -> outcome StubOutT * World)
    (method_name : option string)
    (transform : option (StubOutT -> outcome TransformOutT))
    (caller : string) (w : World) :
  (is_connected client = false ->
     forall stub_method',
       call_stub_method client stub_method' method_name transform caller w
       = (Throws (ClientNotConnected (server_url client)
                    (operation method_name caller)), w))
  /\ (is_connected client = true ->
      forall grpc_error w',
        stub_method w = (Throws (Grpc grpc_error), w') ->
        call_stub_method client stub_method method_name transform caller w
        = (Throws (ApiClientError (server_url client)
                     (operation method_name caller) grpc_error), w'))
  /\ (is_connected client = true ->
      forall response w',
        stub_method w = (Returns response, w') ->
        call_stub_method client stub_method method_name transform caller w
        = match transform with
          | None => (Returns (inl response), w')
          | Some f =>
              match f response with
              | Returns out => (Returns (inr out), w')
              | Throws e => (Throws e, w')
              end
          end).
Proof.
  unfold call_stub_method, operation, from_grpc_error.
  repeat split.
  - intros Hc stub'. rewrite Hc. by destruct method_name.
  - intros Hc g w' Hs. rewrite Hc, Hs. by destruct method_name.
  - intros Hc r w' Hs. rewrite Hc, Hs. by destruct transform.
Qed.

End call_stub_method.

(** A client of the example in the class docstring, connected and not, and
    two stub methods that count their invocations in the world. *)
Definition connected_client : BaseApiClient (Channel := unit) (StubT := unit) :=
  {| _server_url := "grpc://localhost"; _channel := Some tt; _stub := Some tt |}.

Definition disconnected_client : BaseApiClient (Channel := unit) (StubT := unit) :=
  {| _server_url := "grpc://localhost"; _channel := None; _stub := None |}.

Definition unavailable : AioRpcError :=
  {| code := "UNAVAILABLE"; details := "connection refused";
     debug_error_string := "" |}.

Definition example_method (w : nat) : outcome Z * nat := (Returns 42%Z, S w).

Definition failing_method (w : nat) : outcome Z * nat := (Throws (Grpc unavailable), S w).

Definition ExampleResponseWrapper (response : Z) : outcome (Z * Z) :=
  Returns (response, response).

Lemma call_stub_method_contract_witness :
  call_stub_method disconnected_client example_method None
    (Some ExampleResponseWrapper) "example_method" 0
  = (Throws (ClientNotConnected "grpc://localhost" "example_method"), 0)
  /\ call_stub_method connected_client failing_method (Some "get"%string)
       (Some ExampleResponseWrapper) "example_method" 0
     = (Throws (ApiClientError "grpc://localhost" "get" unavailable), 1)
  /\ call_stub_method connected_client example_method None
       (Some ExampleResponseWrapper) "example_method" 0
     = (Returns (inr (42, 42)%Z), 1)
  /\ call_stub_method (TransformOutT := Z * Z) connected_client example_method
       None None "example_method" 0
     = (Returns (inl 42%Z), 1).
Proof.
  split; [|split; [|split]].
  - destruct (call_stub_method_contract disconnected_client example_method None
                (Some ExampleResponseWrapper) "example_method" 0)
      as (Hdisconnected & _ & _).
    exact (Hdisconnected eq_refl example_method).
  - destruct (call_stub_method_contract connected_client failing_method
                (Some "get"%string) (Some ExampleResponseWrapper)
                "example_method" 0)
      as (_ & Hfails & _).
    exact (Hfails eq_refl unavailable 1 eq_refl).
  - destruct (call_stub_method_contract connected_client example_method None
                (Some ExampleResponseWrapper) "example_method" 0)
      as (_ & _ & Hresponse).
    exact (Hresponse eq_refl 42%Z 1 eq_refl).
  - destruct (call_stub_method_contract (TransformOutT := Z * Z)
                connected_client example_method None None "example_method" 0)
      as (_ & _ & Hresponse).
    exact (Hresponse eq_refl 42%Z 1 eq_refl).
Defined.

(** *** The life cycle of [BaseApiClient] *)

Section lifecycle.

Context {Channel StubT ChannelOptions World : Type}.

(** [parse_grpc_uri] belongs to [channel.py], which is not among the
    sources: given a URL and the channel options it makes a channel, or it
    raises. *)
Variable parse_grpc_uri :
  string -> ChannelOptions -> World -> outcome Channel * World.

(** [self._create_stub] and [self._channel_defaults]: [__init__] sets them
    and nothing assigns them again. *)
Variable _create_stub : Channel -> World -> outcome StubT * World.
Variable _channel_defaults : ChannelOptions.

(** [Channel.__aexit__] of grpc.  The three arguments [exc_type], [exc_val]
    and [exc_tb] are [None] together or describe one exception. *)
Variable channel_aexit :
  Channel -> option error -> World -> outcome (option bool) * World.

Local Abbreviation client := (@BaseApiClient Channel StubT).

Definition set_server_url (url : string) (self : client) : client :=
  {| _server_url := url; _channel := _channel self; _stub := _stub self |}.

Definition set_channel (ch : option Channel) (self : client) : client :=
  {| _server_url := _server_url self; _channel := ch; _stub := _stub self |}.

Definition set_stub (st : option StubT) (self : client) : client :=
  {| _server_url := _server_url self; _channel := _channel self; _stub := st |}.

(** The property [channel]. *)
Definition channel (self : client) : outcome Channel :=
  match _channel self with
  | None => Throws (ClientNotConnected (server_url self) "channel")
  | Some ch => Returns ch
  end.

(** The property [stub]. *)
Definition stub (self : client) : outcome StubT :=
  match _stub self with
  | None => Throws (ClientNotConnected (server_url self) "stub")
  | Some st => Returns st
  end.

(** The last two statements of [connect]; an exception leaves what was
    assigned before it. *)
Definition establish (self : client) (w : World)
  : option error * client * World :=
  match parse_grpc_uri (_server_url self) _channel_defaults w with
  | (Throws e, w) => (Some e, self, w)
  | (Returns ch, w) =>
      let self := set_channel (Some ch) self in
      match _create_stub ch w with
      | (Throws e, w) => (Some e, self, w)
      | (Returns st, w) => (None, set_stub (Some st) self, w)
      end
  end.

(** [server_url is not None and server_url != self._server_url] *)
Definition url_changed (server_url : option string) (self : client)
  : option string :=
  match server_url with
  | Some url => if String.eqb url (_server_url self) then None else Some url
  | None => None
  end.

(** [connect(server_url)]: the exception it raises, if any, and the client
    and the world it leaves. *)
Definition connect (server_url : option string) (self : client) (w : World)
  : option error * client * World :=
  match url_changed server_url self with
  | Some url => establish (set_server_url url self) w
  | None => if is_connected self then (None, self, w) else establish self w
  end.

(** [__aexit__(_exc_type, _exc_val, _exc_tb)]: what it returns or raises. *)
Definition __aexit__ (exc : option error) (self : client) (w : World)
  : outcome (option bool) * client * World :=
  match _channel self with
  | None => (Returns None, self, w)
  | Some ch =>
      match channel_aexit ch exc w with
      | (Throws e, w) => (Throws e, self, w)
      | (Returns result, w) =>
          (Returns result, set_stub None (set_channel None self), w)
      end
  end.

(** [disconnect()] *)
Definition disconnect (self : client) (w : World)
  : option error * client * World :=
  match __aexit__ None self w with
  | (Throws e, self, w) => (Some e, self, w)
  | (Returns _, self, w) => (None, self, w)
  end.

(** [__aenter__]: it returns [self]. *)
Definition __aenter__ (self : client) (w : World)
  : option error * client * World :=
  connect None self w.


(** The calls a user makes on a client, one after the other. *)
Inductive call :=
| Connect (server_url : option string)
| Disconnect
| Enter
| Exit (exc : option error).









(** X2. A change of URL that fails.  A connected client is asked to connect to
    another URL, for which [parse_grpc_uri] raises: [connect] raises, the
    client now reports the new URL, and its channel and stub are still those
    of the old one.  Asking again for the new URL, or for no URL, returns
    normally without trying anything. *)
Theorem failed_url_change_keeps_the_old_channel (self : client) url e w w' :
  is_connected self = true ->
  url <> _server_url self ->
  parse_grpc_uri url _channel_defaults w = (Throws e, w') ->
  exists self',
    connect (Some url) self w = (Some e, self', w')
    /\ server_url self' = url
    /\ channel self' = channel self
    /\ _stub self' = _stub self
    /\ is_connected self' = true
    /\ forall w2,
         connect (Some url) self' w2 = (None, self', w2)
         /\ connect None self' w2 = (None, self', w2).
Proof.
  intros Hc Hne Hparse. exists (set_server_url url self).
  assert (Hchanged : url_changed (Some url) self = Some url).
  { unfold url_changed. destruct (String.eqb_spec url (_server_url self)); [congruence|done]. }
  split; [|split; [done|split; [|split; [done|split; [exact Hc|]]]]].
  - unfold connect. rewrite Hchanged. unfold establish. simpl. by rewrite Hparse.
  - unfold channel, is_connected in *. simpl. by destruct (_channel self).
  - intros w2. unfold connect, url_changed. simpl.
    rewrite String.eqb_refl.
    change (is_connected (set_server_url url self)) with (is_connected self).
    by rewrite Hc.
Qed.

(** X3. A connected client whose channel closes without raising is
    disconnected by [disconnect]: it keeps its URL, its [channel] and [stub]
    properties and [call_stub_method] raise [ClientNotConnected] (the stub
    method is not called), and a second [disconnect] does nothing. *)
Theorem disconnect_then_not_connected (self : client) ch result w w' :
  _channel self = Some ch ->
  channel_aexit ch None w = (Returns result, w') ->
  exists self',
    disconnect self w = (None, self', w')
    /\ is_connected self' = false
    /\ server_url self' = server_url self
    /\ channel self' = Throws (ClientNotConnected (server_url self) "channel")
    /\ stub self' = Throws (ClientNotConnected (server_url self) "stub")
    /\ (forall (StubOutT TransformOutT : Type)
               (stub_method : World -> outcome StubOutT * World) method_name
               (transform : option (StubOutT -> outcome TransformOutT)) caller w2,
          call_stub_method self' stub_method method_name transform caller w2
          = (Throws (ClientNotConnected (server_url self)
                       (operation method_name caller)), w2))
    /\ forall w2, disconnect self' w2 = (None, self', w2).
Proof.
  intros Hch Hexit. exists (set_stub None (set_channel None self)).
  split; [|split; [done|split; [done|split; [done|split; [done|split]]]]].
  - unfold disconnect, __aexit__. by rewrite Hch, Hexit.
  - intros StubOutT TransformOutT stub_method method_name transform caller w2.
    unfold call_stub_method, operation. simpl. by destruct method_name.
  - done.
Qed.

(** X4. Entering and leaving the context of a client that is not connected:
    [__aenter__] connects it, so that [channel] and [stub] return what
    [parse_grpc_uri] and [create_stub] made, and [__aexit__], whatever
    happened to the world in between and whether the body raised or not,
    gives back the client as it was. *)
Theorem context_manager_round_trip (self : client) ch st exc result w w1 w2 w3 w4 :
  _channel self = None -> _stub self = None ->
  parse_grpc_uri (_server_url self) _channel_defaults w = (Returns ch, w1) ->
  _create_stub ch w1 = (Returns st, w2) ->
  channel_aexit ch exc w3 = (Returns result, w4) ->
  exists self',
    __aenter__ self w = (None, self', w2)
    /\ channel self' = Returns ch
    /\ stub self' = Returns st
    /\ server_url self' = server_url self
    /\ __aexit__ exc self' w3 = (Returns result, self, w4).
Proof.
  intros Hch Hst Hparse Hcreate Hexit.
  exists (set_stub (Some st) (set_channel (Some ch) self)).
  split; [|split; [done|split; [done|split; [done|]]]].
  - unfold __aenter__, connect, url_changed, is_connected, establish.
    by rewrite Hch, Hparse, Hcreate.
  - unfold __aexit__. simpl. rewrite Hexit.
    destruct self as [u c s]. simpl in *. by subst.
Qed.

(** X5. [create_stub] raises while a client connects: [connect] raises, and
    the client holds the new channel but no stub.  It says it is connected,
    its [stub] property raises [ClientNotConnected], and connecting again
    returns normally without calling [create_stub] again. *)
Theorem failed_stub_leaves_a_channel_without_stub (self : client) ch e w w1 w2 :
  _channel self = None -> _stub self = None ->
  parse_grpc_uri (_server_url self) _channel_defaults w = (Returns ch, w1) ->
  _create_stub ch w1 = (Throws e, w2) ->
  exists self',
    connect None self w = (Some e, self', w2)
    /\ is_connected self' = true
    /\ channel self' = Returns ch
    /\ stub self' = Throws (ClientNotConnected (server_url self) "stub")
    /\ forall w3,
         connect None self' w3 = (None, self', w3)
         /\ connect (Some (_server_url self)) self' w3 = (None, self', w3).
Proof.
  intros Hch Hst Hparse Hcreate. exists (set_channel (Some ch) self).
  split; [|split; [done|split; [done|split]]].
  - unfold connect, url_changed, is_connected, establish.
    by rewrite Hch, Hparse, Hcreate.
  - unfold stub. simpl. by rewrite Hst.
  - intros w3. unfold connect, url_changed. simpl. by rewrite String.eqb_refl.
Qed.

(** X6. A [connect] that returned normally is not repeated: the client is
    connected, and connecting again with the same argument or with no
    argument returns at once, with the client and the world as they are
    ([parse_grpc_uri] and [create_stub] are not called again). *)
Theorem connect_is_idempotent (self self' : client) url w w' :
  connect url self w = (None, self', w') ->
  is_connected self' = true
  /\ forall w2,
       connect url self' w2 = (None, self', w2)
       /\ connect None self' w2 = (None, self', w2).
Proof.
  intros Hconnect.
  assert (Hestablish : forall (c c' : client) v v',
             establish c v = (None, c', v') ->
             is_connected c' = true /\ _server_url c' = _server_url c).
  { intros c c' v v'. unfold establish.
    destruct (parse_grpc_uri _ _ v) as [[ch|e] v1]; [|done].
    destruct (_create_stub ch v1) as [[st|e] v2]; [|done].
    by intros [= <- _]. }
  assert (Hsame : is_connected self' = true
                  /\ url_changed url self' = None).
  { unfold connect in Hconnect.
    destruct (url_changed url self) as [u|] eqn:Hu.
    - apply Hestablish in Hconnect as [Hc Hurl]. split; [done|].
      unfold url_changed in *. destruct url as [u'|]; [|done].
      destruct (String.eqb u' (_server_url self)); [done|].
      injection Hu as ->. rewrite Hurl. simpl. by rewrite String.eqb_refl.
    - destruct (is_connected self) eqn:Hc.
      + by injection Hconnect as <- _.
      + apply Hestablish in Hconnect as [Hc' Hurl]. split; [done|].
        unfold url_changed in *. by rewrite Hurl. }
  destruct Hsame as [Hc Hu]. split; [done|].
  intros w2. unfold connect. rewrite Hu, Hc. done.
Qed.

(** X7. [disconnect] is all or nothing.  Of a client that has no stub without a
    channel, [disconnect] either returns and leaves neither channel nor
    stub, with the URL kept, or it raises what closing the channel raised and
    leaves the client exactly as it was, still connected. *)
Theorem disconnect_is_all_or_nothing (self self' : client) r w w' :
  (_channel self = None -> _stub self = None) ->
  disconnect self w = (r, self', w') ->
  (r = None
   /\ _channel self' = None /\ _stub self' = None
   /\ server_url self' = server_url self)
  \/ (exists e ch,
        r = Some e
        /\ _channel self = Some ch
        /\ channel_aexit ch None w = (Throws e, w')
        /\ self' = self).
Proof.
  intros HI. unfold disconnect, __aexit__.
  destruct (_channel self) as [ch|] eqn:Hch.
  - destruct (channel_aexit ch None w) as [[result|e] w1] eqn:Hexit.
    + intros [= <- <- <-]. by left.
    + intros [= <- <- <-]. right. by exists e, ch.
  - intros [= <- <- <-]. left. by rewrite Hch, HI.
Qed.

End lifecycle.

(** The collaborators of a client in the scenarios: a parser that accepts
    the URLs of scheme [grpc] and makes the URL itself the channel, a stub
    factory, one that raises, and a channel that closes without raising.
    The world counts the channels made, the stubs made and the channels
    closed. *)
Definition example_parse_grpc_uri (url : string) (_ : unit) (w : nat)
  : outcome string * nat :=
  if String.prefix "grpc://" url then (Returns url, S w)
  else (Throws (Other "ValueError"), w).

Definition example_create_stub (ch : string) (w : nat) : outcome string * nat :=
  (Returns ("stub of " ++ ch)%string, S w).

Definition failing_create_stub (ch : string) (w : nat) : outcome string * nat :=
  (Throws (Other "TypeError"), w).

Definition example_channel_aexit (ch : string) (exc : option error) (w : nat)
  : outcome (option bool) * nat :=
  (Returns None, S w).

Definition example_client : BaseApiClient (Channel := string) (StubT := string) :=
  {| _server_url := "grpc://localhost";
     _channel := Some "grpc://localhost"%string;
     _stub := Some "stub of grpc://localhost"%string |}.

Definition new_client : BaseApiClient (Channel := string) (StubT := string) :=
  {| _server_url := "grpc://localhost"; _channel := None; _stub := None |}.

Lemma failed_url_change_keeps_the_old_channel_witness :
  exists self',
    connect example_parse_grpc_uri example_create_stub tt
      (Some "localhost"%string) example_client 0
    = (Some (Other "ValueError"), self', 0)
    /\ server_url self' = "localhost"%string
    /\ channel self' = channel example_client
    /\ _stub self' = _stub example_client
    /\ is_connected self' = true
    /\ forall w2,
         connect example_parse_grpc_uri example_create_stub tt
           (Some "localhost"%string) self' w2 = (None, self', w2)
         /\ connect example_parse_grpc_uri example_create_stub tt
              None self' w2 = (None, self', w2).
Proof.
  apply (failed_url_change_keeps_the_old_channel example_parse_grpc_uri
           example_create_stub tt example_client "localhost"
           (Other "ValueError") 0 0).
  - reflexivity.
  - discriminate.
  - reflexivity.
Defined.

Lemma disconnect_then_not_connected_witness :
  exists self',
    disconnect example_channel_aexit example_client 0 = (None, self', 1)
    /\ is_connected self' = false
    /\ server_url self' = "grpc://localhost"%string
    /\ channel self' = Throws (ClientNotConnected "grpc://localhost" "channel")
    /\ stub self' = Throws (ClientNotConnected "grpc://localhost" "stub")
    /\ (forall (StubOutT TransformOutT : Type)
               (stub_method : nat -> outcome StubOutT * nat) method_name
               (transform : option (StubOutT -> outcome TransformOutT)) caller w2,
          call_stub_method self' stub_method method_name transform caller w2
          = (Throws (ClientNotConnected "grpc://localhost"
                       (operation method_name caller)), w2))
    /\ forall w2, disconnect example_channel_aexit self' w2 = (None, self', w2).
Proof.
  apply (disconnect_then_not_connected example_channel_aexit example_client
           "grpc://localhost"%string None 0 1).
  - reflexivity.
  - reflexivity.
Defined.

Lemma context_manager_round_trip_witness :
  exists self',
    __aenter__ example_parse_grpc_uri example_create_stub tt new_client 0
    = (None, self', 2)
    /\ channel self' = Returns "grpc://localhost"%string
    /\ stub self' = Returns "stub of grpc://localhost"%string
    /\ server_url self' = "grpc://localhost"%string
    /\ __aexit__ example_channel_aexit (Some (Other "KeyError")) self' 7
       = (Returns None, new_client, 8).
Proof.
  apply (context_manager_round_trip example_parse_grpc_uri example_create_stub
           tt example_channel_aexit new_client "grpc://localhost"%string
           "stub of grpc://localhost"%string (Some (Other "KeyError")) None
           0 1 2 7 8).
  - reflexivity.
  - reflexivity.
  - reflexivity.
  - reflexivity.
  - reflexivity.
Defined.

Lemma failed_stub_leaves_a_channel_without_stub_witness :
  exists self',
    connect example_parse_grpc_uri failing_create_stub tt None new_client 0
    = (Some (Other "TypeError"), self', 1)
    /\ is_connected self' = true
    /\ channel self' = Returns "grpc://localhost"%string
    /\ stub self' = Throws (ClientNotConnected "grpc://localhost" "stub")
    /\ forall w3,
         connect example_parse_grpc_uri failing_create_stub tt None self' w3
         = (None, self', w3)
         /\ connect example_parse_grpc_uri failing_create_stub tt
              (Some "grpc://localhost"%string) self' w3 = (None, self', w3).
Proof.
  apply (failed_stub_leaves_a_channel_without_stub example_parse_grpc_uri
           failing_create_stub tt new_client "grpc://localhost"%string
           (Other "TypeError") 0 1 1).
  - reflexivity.
  - reflexivity.
  - reflexivity.
  - reflexivity.
Defined.

Lemma connect_is_idempotent_witness :
  is_connected
    (set_server_url "grpc://elsewhere"
       (set_stub (Some "stub of grpc://elsewhere"%string)
          (set_channel (Some "grpc://elsewhere"%string) example_client))) = true
  /\ forall w2,
       connect example_parse_grpc_uri example_create_stub tt
         (Some "grpc://elsewhere"%string)
         (set_server_url "grpc://elsewhere"
            (set_stub (Some "stub of grpc://elsewhere"%string)
               (set_channel (Some "grpc://elsewhere"%string) example_client))) w2
       = (None,
          set_server_url "grpc://elsewhere"
            (set_stub (Some "stub of grpc://elsewhere"%string)
               (set_channel (Some "grpc://elsewhere"%string) example_client)), w2)
       /\ connect example_parse_grpc_uri example_create_stub tt None
            (set_server_url "grpc://elsewhere"
               (set_stub (Some "stub of grpc://elsewhere"%string)
                  (set_channel (Some "grpc://elsewhere"%string) example_client))) w2
          = (None,
             set_server_url "grpc://elsewhere"
               (set_stub (Some "stub of grpc://elsewhere"%string)
                  (set_channel (Some "grpc://elsewhere"%string) example_client)), w2).
Proof.
  apply (connect_is_idempotent example_parse_grpc_uri example_create_stub tt
           example_client _ (Some "grpc://elsewhere"%string) 0 2).
  reflexivity.
Defined.


(** A channel that cannot be closed. *)
Definition failing_channel_aexit (ch : string) (exc : option error) (w : nat)
  : outcome (option bool) * nat :=
  (Throws (Other "RuntimeError"), w).

Lemma disconnect_is_all_or_nothing_witness :
  (Some (Other "RuntimeError") = None
   /\ _channel example_client = None /\ _stub example_client = None
   /\ server_url example_client = server_url example_client)
  \/ (exists e ch,
        Some (Other "RuntimeError") = Some e
        /\ _channel example_client = Some ch
        /\ failing_channel_aexit ch None 0 = (Throws e, 0)
        /\ example_client = example_client).
Proof.
  apply (disconnect_is_all_or_nothing failing_channel_aexit example_client
           example_client (Some (Other "RuntimeError")) 0 0).
  - discriminate.
  - reflexivity.
Defined.

End Client.

(** ** [streaming.py]: [GrpcStreamBroadcaster]

    The pump ([_run]) is an asyncio task.  A task gives up control only at
    an [await], so the code between two [await]s is one step: a task is
    described by the [await] at which it is suspended, and [run_task] takes
    it from there to the next one.  The event loop is left to the
    executions: any task that can run may run next, and consumers and the
    owner of the broadcaster act in between.

    - The stream is given by its outcomes: what the [k]-th call of
      [self._stream_method()] does, and what each [__anext__] of the stream
      it returns does.
    - [await self._channel.close()] sets the flag and returns without giving
      up control, so the pump closes the channel and returns in one step.
    - [stop()] gives up control at [await self._task], after it has
      cancelled the task and before it closes the channel.  It is two steps,
      and whatever can run may run in between, a [start()] included: the
      channel that is closed is the one [self._channel] is when [stop()] is
      resumed.
    - [self._task.cancel()] and the task taking the [CancelledError] at the
      [await] where it is suspended are one step: the task runs nothing of
      its own in between. *)

Module Streaming.

(** The exceptions that matter to the pump.  [AioRpcError] is the transport
    error the pump's [except] clause names; [CancelledError] is what
    [Task.cancel()] throws into the task; [SenderError] is what a send on a
    closed channel raises; [OtherError] is every other exception. *)
Inductive exn :=
| AioRpcError (code details : string)
| CancelledError
| SenderError
| OtherError (name : string).

(** [except grpc.aio.AioRpcError as err]: does the clause match? *)
Definition is_AioRpcError (e : exn) : bool :=
  match e with
  | AioRpcError _ _ => true
  | _ => false
  end.

(** The outcome of a synchronous call. *)
Inductive res (A : Type) :=
| Return (a : A)
| Raises (e : exn).
Arguments Return {A} a.
Arguments Raises {A} e.

(** The outcome of one [__anext__] of an async iterator. *)
Inductive anext (A : Type) :=
| Yield (x : A)
| StopAsyncIteration
| Raise (e : exn).
Arguments Yield {A} x.
Arguments StopAsyncIteration {A}.
Arguments Raise {A} e.

(** Modelled from the spec: [retry.py] is not among the sources.  A
    [Strategy] is the capability set of section 4.2 over its own mutable
    state [Policy]: [next_interval] returns a delay in seconds or the terminal
    signal [None] together with the updated state. *)
Class Strategy (Policy : Type) := {
  reset : Policy -> Policy;
  next_interval : Policy -> option Q * Policy;
  get_progress : Policy -> string;
  copy : Policy -> Policy;
}.

(** The records of [_logger].  Every message starts with the stream name,
    which is left out here. *)
Inductive level := INFO | WARNING | ERROR.

(** [error_str]: ["Error: {error}"] or ["Stream exhausted"]. *)
Inductive reason :=
| Error (error : exn)
| Stream_exhausted.

Definition error_str (error : option exn) : reason :=
  match error with
  | Some e => Error e
  | None => Stream_exhausted
  end.

Inductive message :=
| Starting_to_stream
| Retrying (progress : string) (interval : Q) (why : reason)
| Giving_up (progress : string) (why : reason)
| Stream_stopped.

Section Broadcaster.

Context {InputT OutputT Policy : Type} `{!Strategy Policy}.

(** [stream_method k] is the result of the [k]-th invocation of
    [self._stream_method()] (it is invoked afresh for every connection
    attempt and may answer differently each time): the call raises, or it
    returns an async iterator, given by the outcome of each [__anext__]. *)
Variable stream_method : nat -> res (nat -> anext InputT).
Variable transform : InputT -> res OutputT.

(** [LinearBackoff()], the strategy used when none is given. *)
Variable LinearBackoff : Policy.

(** The [i]-th [__anext__] of the [k]-th stream. *)
Definition item (k i : nat) : anext InputT :=
  match stream_method k with
  | Return call => call i
  | Raises e => Raise e
  end.

(** *** The broadcast channel

    Modelled from the spec: [frequenz.channels.Broadcast] is an external
    collaborator.  Sections 3 and 6 give its contract: every receiver is a
    bounded queue, [send] hands the item to every receiver and suspends
    while some receiver's buffer is full, [close] sets the observable flag,
    and a receiver drains what is buffered and then terminates.  A send on
    a closed channel raises [SenderError] and delivers nothing.

    [seen] is what the consumer has taken out of the receiver so far. *)
Record receiver := {
  limit : Z;
  queue : list OutputT;
  seen : list OutputT;
}.

Record broadcast := {
  is_closed : bool;
  receivers : list receiver;
}.

(** [channels.Broadcast(name=...)] *)
Definition Broadcast : broadcast :=
  {| is_closed := false; receivers := [] |}.

(** Everything the channel has handed to a receiver, in order. *)
Definition observed (r : receiver) : list OutputT := seen r ++ queue r.

Definition has_room (r : receiver) : bool :=
  (Z.of_nat (length (queue r)) <? limit r)%Z.

Definition enqueue (y : OutputT) (r : receiver) : receiver :=
  {| limit := limit r; queue := queue r ++ [y]; seen := seen r |}.

Definition deliver (y : OutputT) (b : broadcast) : broadcast :=
  {| is_closed := is_closed b; receivers := enqueue y <$> receivers b |}.

Definition close_broadcast (b : broadcast) : broadcast :=
  {| is_closed := true; receivers := receivers b |}.

Definition add_receiver (maxsize : Z) (b : broadcast) : broadcast :=
  {| is_closed := is_closed b;
     receivers := receivers b ++ [{| limit := maxsize; queue := []; seen := [] |}] |}.

Definition dequeue (r : receiver) : receiver :=
  match queue r with
  | [] => r
  | y :: q => {| limit := limit r; queue := q; seen := seen r ++ [y] |}
  end.

Definition consume (r : nat) (b : broadcast) : broadcast :=
  {| is_closed := is_closed b; receivers := alter dequeue r (receivers b) |}.

(** What the next [__anext__] of a receiver does. *)
Inductive received :=
| Item (y : OutputT)
| End_of_stream
| Waiting.

Definition next_item (b : broadcast) (r : receiver) : received :=
  match queue r with
  | y :: _ => Item y
  | [] => if is_closed b then End_of_stream else Waiting
  end.

(** *** The pump task

    A task is described by the [await] at which [_run] is suspended.
    [sender] is the channel [self._channel.new_sender()] was taken from,
    [call] numbers the stream the task iterates and [i] the item it
    waits for. *)
Inductive pump :=
| Created
| Streaming (sender call i : nat)
| Sending (sender call i : nat) (msg : OutputT)
| Sleeping (sender : nat) (interval : Q)
| Finished
| Cancelled
| Failed (e : exn).

(** [Task.done()] *)
Definition done (p : pump) : bool :=
  match p with
  | Finished | Cancelled | Failed _ => true
  | _ => false
  end.

(** The broadcaster and the objects it refers to: [tasks] and [channels]
    hold every task and channel created so far, [_task] and [_channel]
    point into them.  [calls] counts the invocations of
    [self._stream_method]; [log] is what [_logger] has recorded.
    [stopping] is the number of [stop()] calls that are suspended at
    [await self._task] (line 95) and will close the channel when the event
    loop resumes them. *)
Record state := {
  _retry_strategy : Policy;
  _task : option nat;
  _channel : nat;
  tasks : list pump;
  channels : list broadcast;
  calls : nat;
  log : list (level * message);
  stopping : nat;
}.

Definition set_strategy (st : Policy) (s : state) : state :=
  {| _retry_strategy := st; _task := _task s; _channel := _channel s;
     tasks := tasks s; channels := channels s; calls := calls s;
     log := log s; stopping := stopping s |}.

Definition set_pump (t : nat) (p : pump) (s : state) : state :=
  {| _retry_strategy := _retry_strategy s; _task := _task s;
     _channel := _channel s; tasks := <[t := p]> (tasks s);
     channels := channels s; calls := calls s; log := log s;
     stopping := stopping s |}.

Definition alter_channel (f : broadcast -> broadcast) (c : nat) (s : state) : state :=
  {| _retry_strategy := _retry_strategy s; _task := _task s;
     _channel := _channel s; tasks := tasks s;
     channels := alter f c (channels s); calls := calls s; log := log s;
     stopping := stopping s |}.

Definition emit (l : level) (m : message) (s : state) : state :=
  {| _retry_strategy := _retry_strategy s; _task := _task s;
     _channel := _channel s; tasks := tasks s; channels := channels s;
     calls := calls s; log := log s ++ [(l, m)]; stopping := stopping s |}.

Definition count_call (s : state) : state :=
  {| _retry_strategy := _retry_strategy s; _task := _task s;
     _channel := _channel s; tasks := tasks s; channels := channels s;
     calls := S (calls s); log := log s; stopping := stopping s |}.

Definition set_stopping (n : nat) (s : state) : state :=
  {| _retry_strategy := _retry_strategy s; _task := _task s;
     _channel := _channel s; tasks := tasks s; channels := channels s;
     calls := calls s; log := log s; stopping := n |}.

(** [channel.is_closed] of the channel at [c]. *)
Definition closed (c : nat) (s : state) : bool :=
  match channels s !! c with
  | Some b => is_closed b
  | None => false
  end.

(** [await self._channel.close()]: the flag is set at once. *)
Definition close (s : state) : state :=
  alter_channel close_broadcast (_channel s) s.

(** An exception leaves [_run]: the task is done, cancelled when the
    exception is [CancelledError] and failed otherwise. *)
Definition terminate (t : nat) (e : exn) (s : state) : state :=
  set_pump t (match e with CancelledError => Cancelled | _ => Failed e end) s.

(** Lines 113-131: the code after the [try] statement, up to the
    [break] or to the [await asyncio.sleep(interval)]. *)
Definition stream_ended (t sender : nat) (error : option exn) (s : state) : state :=
  let '(interval, st) := next_interval (_retry_strategy s) in
  let s := set_strategy st s in
  match interval with
  | None =>
      set_pump t Finished
        (close (emit ERROR (Giving_up (get_progress st) (error_str error)) s))
  | Some d =>
      set_pump t (Sleeping sender d)
        (emit WARNING (Retrying (get_progress st) d (error_str error)) s)
  end.

(** An exception raised inside the [try] block (lines 107-112): the
    [except] clause takes an [AioRpcError]; anything else leaves [_run]. *)
Definition raised_in_try (t sender : nat) (e : exn) (s : state) : state :=
  if is_AioRpcError e then stream_ended t sender (Some e) s
  else terminate t e s.

(** Lines 105-109: the head of one loop iteration, up to the first
    [__anext__] of the new stream. *)
Definition attempt (t sender : nat) (s : state) : state :=
  let s := emit INFO Starting_to_stream s in
  let k := calls s in
  let s := count_call s in
  match stream_method k with
  | Raises e => raised_in_try t sender e s
  | Return _ => set_pump t (Streaming sender k 0) s
  end.

(** The event loop resumes task [t], which runs to its next [await].
    [None]: the task cannot run (it is done, or its send is blocked). *)
Definition run_task (t : nat) (s : state) : option state :=
  match tasks s !! t with
  | Some Created => Some (attempt t (_channel s) s)
  | Some (Sleeping sender _) => Some (attempt t sender s)
  | Some (Streaming sender k i) =>
      match item k i with
      | Yield x =>
          match transform x with
          | Return y => Some (set_pump t (Sending sender k i y) s)
          | Raises e => Some (raised_in_try t sender e s)
          end
      | StopAsyncIteration => Some (stream_ended t sender None s)
      | Raise e => Some (raised_in_try t sender e s)
      end
  | Some (Sending sender k i y) =>
      match channels s !! sender with
      | Some b =>
          if is_closed b then Some (raised_in_try t sender SenderError s)
          else if forallb has_room (receivers b) then
            Some (set_pump t (Streaming sender k (S i))
                    (alter_channel (deliver y) sender s))
          else None
      | None => None
      end
  | Some Finished | Some Cancelled | Some (Failed _) | None => None
  end.

(** *** The public operations *)

(** [self._task is not None and not self._task.done()] *)
Definition running (s : state) : bool :=
  match _task s with
  | Some t =>
      match tasks s !! t with
      | Some p => negb (done p)
      | None => false
      end
  | None => false
  end.

(** [start()].  The task is created before the channel is assigned, but it
    first runs after [start] has returned, so it finds the new channel. *)
Definition start (s : state) : state :=
  if running s then s
  else
    {| _retry_strategy := reset (_retry_strategy s);
       _task := Some (length (tasks s));
       _channel := length (channels s);
       tasks := tasks s ++ [Created];
       channels := channels s ++ [Broadcast];
       calls := calls s;
       log := log s;
       stopping := stopping s |}.

(** [__init__]: before [start()] assigns it, [_channel] is only declared. *)
Definition init (retry_strategy : option Policy) : state :=
  start
    {| _retry_strategy :=
         match retry_strategy with
         | None => LinearBackoff
         | Some r => copy r
         end;
       _task := None;
       _channel := 0;
       tasks := [];
       channels := [];
       calls := 0;
       log := [];
       stopping := 0 |}.

(** [new_receiver(maxsize)]: the receiver is named by its channel and its
    position among that channel's receivers.  [maxsize] goes to the channel
    as it is given.  The channel's contract is for a positive capacity; the
    library builds the receiver's queue with [collections.deque(maxlen=limit)],
    which raises [ValueError] for a negative limit, and that happens after
    the restart, if there is one. *)
Definition new_receiver (maxsize : Z) (s : state) : res (nat * nat) * state :=
  let s :=
    if closed (_channel s) s then start (emit WARNING Stream_stopped s)
    else s in
  if (maxsize <? 0)%Z then (Raises (OtherError "ValueError"), s)
  else
    let c := _channel s in
    let r :=
      match channels s !! c with
      | Some b => length (receivers b)
      | None => 0
      end in
    (Return (c, r), alter_channel (add_receiver maxsize) c s).

(** [self._task.cancel()] followed by the event loop resuming the task:
    [CancelledError] is thrown at the [await] where the task is suspended,
    inside the [try] block while it iterates or sends, outside of it while
    it sleeps; a task that never ran is just marked cancelled. *)
Definition cancel (t : nat) (s : state) : state :=
  match tasks s !! t with
  | Some (Streaming sender _ _) | Some (Sending sender _ _ _) =>
      raised_in_try t sender CancelledError s
  | Some Created | Some (Sleeping _ _) => terminate t CancelledError s
  | _ => s
  end.

(** [stop()] up to its suspension at [await self._task] (lines 91-95).  The
    awaited task is done by then ([cancel]), so what the call does when it is
    resumed is settled: it raises what the task raised, or, the
    [CancelledError] being swallowed, it goes on to line 98 and closes the
    channel.  Until the event loop resumes it anything else can run. *)
Definition stop_cancel (s : state) : state :=
  if running s then
    match _task s with
    | Some t =>
        let s := cancel t s in
        match tasks s !! t with
        | Some (Failed e) => s
        | _ => set_stopping (S (stopping s)) s
        end
    | None => s
    end
  else s.

(** A suspended [stop()] call is resumed (lines 96-98): it closes the
    channel that [self._channel] is by now.  [None]: no call is suspended. *)
Definition stop_close (s : state) : option state :=
  match stopping s with
  | S n => Some (close (set_stopping n s))
  | 0 => None
  end.


(** A consumer takes the next item out of receiver [r] of channel [c];
    [None] when there is nothing to take. *)
Definition receive (c r : nat) (s : state) : option state :=
  match channels s !! c with
  | Some b =>
      match receivers b !! r with
      | Some rc =>
          match queue rc with
          | [] => None
          | _ => Some (alter_channel (consume r) c s)
          end
      | None => None
      end
  | None => None
  end.

(** *** Executions

    What can happen to a broadcaster: [start()] or [new_receiver()] is
    called, [stop()] is called and runs up to its [await] ([Stop]), the
    event loop resumes a suspended [stop()] call ([Stopped]) or a task, a
    consumer takes an item.  An execution is any sequence of these, each
    one possible in the state it finds: between [Stop] and [Stopped]
    anything can happen, a [start()] included. *)
Inductive action :=
| Start
| New_receiver (maxsize : Z)
| Stop
| Stopped
| Run (t : nat)
| Receive (c r : nat).

Definition exec (a : action) (s : state) : option state :=
  match a with
  | Start => Some (start s)
  | New_receiver maxsize => Some (snd (new_receiver maxsize s))
  | Stop => Some (stop_cancel s)
  | Stopped => stop_close s
  | Run t => run_task t s
  | Receive c r => receive c r s
  end.

Fixpoint run (acts : list action) (s : state) : option state :=
  match acts with
  | [] => Some s
  | a :: acts =>
      match exec a s with
      | Some s' => run acts s'
      | None => None
      end
  end.

(** The states a broadcaster constructed with [retry_strategy] can be in. *)
Definition reachable (retry_strategy : option Policy) (s : state) : Prop :=
  exists acts, run acts (init retry_strategy) = Some s.

(** In the execution [acts] from [s] no [start()] is called while a
    [stop()] call is suspended at its [await]. *)
Fixpoint start_awaits_stop (acts : list action) (s : state) : bool :=
  match acts with
  | [] => true
  | a :: acts =>
      match a with
      | Start => Nat.eqb (stopping s) 0
      | _ => true
      end
      && match exec a s with
         | Some s' => start_awaits_stop acts s'
         | None => true
         end
  end.

(** *** The lifecycle invariant *)

(** What a suspended task holds on to: its sender belongs to channel [c], it
    iterates a stream that was really requested, and the message it is about
    to send is the transformed item it last took from that stream. *)
Definition bound (c n : nat) (p : pump) : Prop :=
  match p with
  | Streaming sender k _ => sender = c /\ k < n
  | Sending sender k i y =>
      sender = c /\ k < n /\ exists x, item k i = Yield x /\ transform x = Return y
  | Sleeping sender _ => sender = c
  | _ => True
  end.

Record Inv (s : state) : Prop := {
  (** [_task] and [_channel] refer to existing objects *)
  inv_task : exists t, _task s = Some t /\ t < length (tasks s);
  inv_channel : _channel s < length (channels s);
  (** a task that is not done is the broadcaster's current task *)
  inv_one : forall t p, tasks s !! t = Some p -> done p = false -> _task s = Some t;
  (** it is bound to the broadcaster's current channel *)
  inv_bound : forall t p, tasks s !! t = Some p -> bound (_channel s) (calls s) p;
  (** a pump that gave up has closed the current channel *)
  inv_finished : forall t, _task s = Some t -> tasks s !! t = Some Finished ->
                           closed (_channel s) s = true;
}.

(** *** Notions used in the statements and in the proofs *)

(** Receiver [r] of channel [c]. *)
Definition receiver_at (c r : nat) (s : state) : option receiver :=
  channels s !! c ≫= fun b => receivers b !! r.

(** From [s] to [s'] the receivers that channel [c] has in [s] are handed
    exactly the items [ys], in this order. *)
Definition handed (c : nat) (ys : list OutputT) (s s' : state) : Prop :=
  forall r rc, receiver_at c r s = Some rc ->
    exists rc', receiver_at c r s' = Some rc' /\ observed rc' = observed rc ++ ys.

(** The receivers of no channel change. *)
Definition same_receivers (s s' : state) : Prop :=
  forall c r, receiver_at c r s' = receiver_at c r s.

(** The stream a task is iterating, if any. *)
Definition call_of (p : pump) : option nat :=
  match p with
  | Streaming _ k _ | Sending _ k _ _ => Some k
  | _ => None
  end.

(** Task [t] moves to [p'] and nothing else happens that a consumer or the
    owner could tell apart, except that the current channel may get closed
    and the stream method may have been called. *)
Record moves (t : nat) (p' : pump) (s s' : state) : Prop := {
  moves_tasks : tasks s' = <[t := p']> (tasks s);
  moves_task : _task s' = _task s;
  moves_channel : _channel s' = _channel s;
  moves_receivers : same_receivers s s';
  moves_calls : calls s <= calls s';
  moves_closed : forall c, closed c s = true -> closed c s' = true;
  moves_open : forall c, c <> _channel s -> closed c s' = closed c s;
  moves_length : length (channels s') = length (channels s);
  moves_closes : closed (_channel s) s = false ->
                 closed (_channel s) s' = true -> p' = Finished;
  moves_stopping : stopping s' = stopping s;
}.

(** The state in which [new_receiver] creates the receiver. *)
Definition restarted (s : state) : state :=
  if closed (_channel s) s then start (emit WARNING Stream_stopped s) else s.

(** The channel is asked for a receiver of capacity [maxsize]. *)
Definition subscribed (maxsize : Z) (s : state) : state :=
  if (maxsize <? 0)%Z then s
  else alter_channel (add_receiver maxsize) (_channel s) s.

(** Stream [k] produces exactly the items [xs] and then ends. *)
Definition produces (k : nat) (xs : list InputT) : Prop :=
  (forall i x, xs !! i = Some x -> item k i = Yield x)
  /\ item k (length xs) = StopAsyncIteration.

(** [ys] are the transformed items [xs]. *)
Definition transformed (xs : list InputT) (ys : list OutputT) : Prop :=
  Forall2 (fun x y => transform x = Return y) xs ys.

(** Task [t] is in the middle of attempt [k] on channel [c]: it has sent
    [ys], the first items of [xs] transformed, since [s0], and waits for the
    next item or is about to send it. *)
Definition in_attempt (t c k : nat) (xs : list InputT) (s0 : state)
    (ys : list OutputT) (s : state) : Prop :=
  (tasks s !! t = Some (Streaming c k (length ys))
   \/ exists y, tasks s !! t = Some (Sending c k (length ys) y))
  /\ transformed (take (length ys) xs) ys
  /\ length ys <= length xs
  /\ handed c ys s0 s.

(** Task [t] is no longer iterating stream [k], which was requested. *)
Definition left_attempt (t k : nat) (s : state) : Prop :=
  exists p, tasks s !! t = Some p /\ call_of p <> Some k /\ k < calls s.

(** Since [s], where no pump ran, channels have only been added, and a pump
    that runs now serves a channel that [s] did not have. *)
Definition idle_since (s s1 : state) : Prop :=
  Inv s1
  /\ length (channels s) <= length (channels s1)
  /\ (running s1 = true -> length (channels s) <= _channel s1).

(** Channel [c] is open, and while it is the current channel no pump runs
    and no [stop()] call is about to close it. *)
Definition left_open (c : nat) (s : state) : Prop :=
  Inv s
  /\ closed c s = false
  /\ c < length (channels s)
  /\ (_channel s = c -> running s = false /\ stopping s = 0).

(** Task [t] serves channel [c] for as long as it is not done. *)
Definition serves (t c : nat) (s : state) : Prop :=
  Inv s /\ exists p, tasks s !! t = Some p /\ (done p = false -> _channel s = c).

(** A pump activity that is alive: a task that is not done. *)
Definition live (s : state) (t : nat) : Prop :=
  exists p, tasks s !! t = Some p /\ done p = false.


(** What holds as long as [start()] is not called under a suspended
    [stop()]: a closed channel has no pump, and a suspended [stop()] call is
    the only one, has left no pump running and finds the channel open. *)
Record orderly (s : state) : Prop := {
  orderly_closed : closed (_channel s) s = true -> running s = false;
  orderly_stopping : stopping s <> 0 ->
                     running s = false
                     /\ closed (_channel s) s = false
                     /\ stopping s = 1;
}.

(** What receiver [r] of channel [c] gets from its next [__anext__]. *)
Definition next_of (c r : nat) (s : state) : option received :=
  channels s !! c ≫= fun b => next_item b <$> receivers b !! r.

(** A receiver whose consumer has taken everything. *)
Definition drained (rc : receiver) : receiver :=
  {| limit := limit rc; queue := []; seen := observed rc |}.

(** Between [s] and [s'] only consumers have acted. *)
Record receivers_only (s s' : state) : Prop := {
  only_tasks : tasks s' = tasks s;
  only_channel : _channel s' = _channel s;
  only_closed : forall c, closed c s' = closed c s;
  only_calls : calls s' = calls s;
  only_log : log s' = log s;
  only_strategy : _retry_strategy s' = _retry_strategy s;
}.

(** *** Basic facts about the state updates *)

Lemma closed_alter_channel f c c' s :
  (forall b, is_closed (f b) = is_closed b) ->
  closed c (alter_channel f c' s) = closed c s.
Proof.
  intros Hf. unfold closed, alter_channel; simpl.
  rewrite list_lookup_alter. case_decide as Hc; [|done].
  rewrite Hc. destruct (channels s !! c); simpl; [apply Hf|done].
Qed.

Lemma closed_close_eq s :
  _channel s < length (channels s) -> closed (_channel s) (close s) = true.
Proof.
  intros Hc. unfold closed, close, alter_channel; simpl.
  rewrite list_lookup_alter_eq.
  destruct (lookup_lt_is_Some_2 _ _ Hc) as [b ->]. done.
Qed.

Lemma closed_close_mono c s : closed c s = true -> closed c (close s) = true.
Proof.
  unfold closed, close, alter_channel; simpl.
  rewrite list_lookup_alter. case_decide as Hc; [|done].
  rewrite Hc. destruct (channels s !! c); simpl; done.
Qed.

Lemma closed_close_ne c s : c <> _channel s -> closed c (close s) = closed c s.
Proof.
  intros Hne. unfold closed, close, alter_channel; simpl.
  by rewrite list_lookup_alter_ne.
Qed.

Lemma running_false_done s t p :
  _task s = Some t -> tasks s !! t = Some p -> running s = negb (done p).
Proof. intros Ht Hp. unfold running. by rewrite Ht, Hp. Qed.

Lemma bound_mono c n m p : n <= m -> bound c n p -> bound c m p.
Proof. intros Hnm. destruct p; simpl; intuition lia. Qed.

(** *** Every step keeps the invariant *)

Lemma Inv_emit l m s : Inv s -> Inv (emit l m s).
Proof. intros [H1 H2 H3 H4 H6]. split; [exact H1|exact H2|exact H3|exact H4|exact H6]. Qed.

Lemma Inv_set_strategy st s : Inv s -> Inv (set_strategy st s).
Proof. intros [H1 H2 H3 H4 H6]. split; [exact H1|exact H2|exact H3|exact H4|exact H6]. Qed.

Lemma Inv_set_stopping n s : Inv s -> Inv (set_stopping n s).
Proof. intros [H1 H2 H3 H4 H6]. split; [exact H1|exact H2|exact H3|exact H4|exact H6]. Qed.

Lemma Inv_count_call s : Inv s -> Inv (count_call s).
Proof.
  intros [H1 H2 H3 H4 H6].
  split; [exact H1|exact H2|exact H3| |exact H6].
  intros t p Hp. simpl. eapply bound_mono; [|by eapply H4]. lia.
Qed.

Lemma Inv_alter_channel f c s :
  (forall b, is_closed b = true -> is_closed (f b) = true) ->
  Inv s -> Inv (alter_channel f c s).
Proof.
  intros Hf [H1 H2 H3 H4 H6].
  split; [exact H1| |exact H3|exact H4|].
  - simpl. by rewrite length_alter.
  - intros t Ht Hp. specialize (H6 t Ht Hp). revert H6.
    unfold closed, alter_channel; simpl.
    rewrite list_lookup_alter. case_decide as Hc; [|done].
    rewrite Hc. destruct (channels s !! _channel s); simpl; [apply Hf|done].
Qed.

(** A live task is the current one. *)
Lemma Inv_live s t p :
  Inv s -> tasks s !! t = Some p -> done p = false -> _task s = Some t.
Proof. intros HI Hp Hd. exact (inv_one s HI t p Hp Hd). Qed.

(** The task moves to another suspension point, or ends with an exception. *)
Lemma Inv_set_pump s t p p' :
  Inv s -> tasks s !! t = Some p -> done p = false ->
  bound (_channel s) (calls s) p' -> p' <> Finished ->
  Inv (set_pump t p' s).
Proof.
  intros HI Hp Hd Hb Hnf.
  pose proof (Inv_live s t p HI Hp Hd) as Ht.
  destruct HI as [H1 H2 H3 H4 H6].
  split; simpl.
  - destruct H1 as (t' & ? & ?). exists t'. by rewrite length_insert.
  - exact H2.
  - intros t' q [(-> & -> & _)|(Hne & Hq)]%list_lookup_insert_Some Hdq; [done|].
    by eapply H3.
  - intros t' q [(-> & -> & _)|(Hne & Hq)]%list_lookup_insert_Some; [done|].
    by eapply H4.
  - intros t' Ht' [(-> & Hq & _)|(Hne & Hq)]%list_lookup_insert_Some; [done|].
    congruence.
Qed.

(** The pump gives up: it closes the channel and returns. *)
Lemma Inv_give_up s t p :
  Inv s -> tasks s !! t = Some p -> done p = false ->
  Inv (set_pump t Finished (close s)).
Proof.
  intros HI Hp Hd.
  pose proof (Inv_live s t p HI Hp Hd) as Ht.
  destruct HI as [H1 H2 H3 H4 H6].
  assert (Hlt : t < length (tasks s)) by by eapply lookup_lt_Some.
  split; simpl.
  - destruct H1 as (t' & ? & ?). exists t'. by rewrite length_insert.
  - by rewrite length_alter.
  - intros t' q [(-> & <- & _)|(Hne & Hq)]%list_lookup_insert_Some Hdq; [done|].
    by eapply H3.
  - intros t' q [(-> & <- & _)|(Hne & Hq)]%list_lookup_insert_Some; [done|].
    by eapply H4.
  - intros _ _ _.
    change (closed (_channel s) (close s) = true). by apply closed_close_eq.
Qed.

Lemma Inv_stream_ended s t p error :
  Inv s -> tasks s !! t = Some p -> done p = false ->
  Inv (stream_ended t (_channel s) error s).
Proof.
  intros HI Hp Hd. unfold stream_ended.
  destruct (next_interval (_retry_strategy s)) as [[d|] st].
  - eapply Inv_set_pump; [by apply Inv_emit, Inv_set_strategy|exact Hp|exact Hd|done|done].
  - eapply (Inv_give_up (emit _ _ (set_strategy st s))); [by apply Inv_emit, Inv_set_strategy|exact Hp|exact Hd].
Qed.

Lemma Inv_terminate s t p e :
  Inv s -> tasks s !! t = Some p -> done p = false -> Inv (terminate t e s).
Proof.
  intros HI Hp Hd. unfold terminate.
  eapply Inv_set_pump; [exact HI|exact Hp|exact Hd| |]; by destruct e.
Qed.

Lemma Inv_raised_in_try s t p e :
  Inv s -> tasks s !! t = Some p -> done p = false ->
  Inv (raised_in_try t (_channel s) e s).
Proof.
  intros HI Hp Hd. unfold raised_in_try.
  destruct (is_AioRpcError e); [by eapply Inv_stream_ended|by eapply Inv_terminate].
Qed.

Lemma Inv_attempt s t p :
  Inv s -> tasks s !! t = Some p -> done p = false ->
  Inv (attempt t (_channel s) s).
Proof.
  intros HI Hp Hd. unfold attempt.
  set (s' := count_call (emit INFO Starting_to_stream s)).
  assert (HI' : Inv s') by by apply Inv_count_call, Inv_emit.
  change (calls (emit INFO Starting_to_stream s)) with (calls s).
  destruct (stream_method (calls s)) eqn:Hk.
  - eapply Inv_set_pump; [exact HI'|exact Hp|exact Hd| |done].
    simpl. split; [done|lia].
  - by eapply (Inv_raised_in_try s').
Qed.

Lemma Inv_run_task t s s' : Inv s -> run_task t s = Some s' -> Inv s'.
Proof.
  intros HI. unfold run_task.
  destruct (tasks s !! t) as [p|] eqn:Hp; [|done].
  pose proof (inv_bound s HI t p Hp) as Hb.
  destruct p as [|sender k i|sender k i y|sender d| | |e]; simpl in Hb; try done.
  - intros [= <-]. by eapply Inv_attempt.
  - destruct Hb as [-> Hk].
    destruct (item k i) as [x| |e] eqn:Hi.
    + destruct (transform x) as [y|e] eqn:Hx; intros [= <-].
      * eapply Inv_set_pump; [exact HI|exact Hp|done| |done].
        simpl. eauto.
      * by eapply Inv_raised_in_try.
    + intros [= <-]. by eapply Inv_stream_ended.
    + intros [= <-]. by eapply Inv_raised_in_try.
  - destruct Hb as (-> & Hk & Hy).
    destruct (channels s !! _channel s) as [b|] eqn:Hc; [|done].
    destruct (is_closed b).
    + intros [= <-]. by eapply Inv_raised_in_try.
    + destruct (forallb has_room (receivers b)); [|done].
      intros [= <-].
      eapply Inv_set_pump; [by apply Inv_alter_channel|exact Hp|done| |done].
      simpl. split; [done|lia].
  - subst sender. intros [= <-]. by eapply Inv_attempt.
Qed.

(** [Task.cancel()] ends a live task as cancelled, wherever it is suspended;
    nothing else changes. *)
Lemma cancel_live t s p :
  tasks s !! t = Some p -> done p = false -> cancel t s = set_pump t Cancelled s.
Proof. intros Hp Hd. unfold cancel. rewrite Hp. by destruct p. Qed.

Lemma running_Some s :
  running s = true ->
  exists t p, _task s = Some t /\ tasks s !! t = Some p /\ done p = false.
Proof.
  unfold running. destruct (_task s) as [t|]; [|done].
  destruct (tasks s !! t) as [p|] eqn:Hp; [|done].
  intros Hd%negb_true_iff. exists t, p. done.
Qed.

Lemma Inv_all_done s t p :
  Inv s -> running s = false -> tasks s !! t = Some p -> done p = true.
Proof.
  intros HI Hr Hp. destruct (done p) eqn:Hd; [done|].
  pose proof (inv_one s HI t p Hp Hd) as Ht.
  rewrite (running_false_done s t p Ht Hp), Hd in Hr. done.
Qed.

Lemma bound_done c n p : done p = true -> bound c n p.
Proof. by destruct p. Qed.

(** The branch of [start()] that really starts. *)
Lemma Inv_start_fresh s :
  (forall t p, tasks s !! t = Some p -> done p = true) ->
  running s = false -> Inv (start s).
Proof.
  intros Hall Hr. unfold start. rewrite Hr.
  split; simpl.
  - eexists. split; [done|]. rewrite length_app. simpl. lia.
  - rewrite length_app. simpl. lia.
  - intros t p [(_ & Hp)|(-> & _)]%lookup_snoc_Some Hd; [|done].
    apply Hall in Hp. congruence.
  - intros t p [(_ & Hp)|(-> & <-)]%lookup_snoc_Some; [|done].
    apply bound_done. by eapply Hall.
  - intros t [= <-]. by rewrite list_lookup_middle.
Qed.

Lemma Inv_start s : Inv s -> Inv (start s).
Proof.
  intros HI. destruct (running s) eqn:Hr.
  - unfold start. by rewrite Hr.
  - apply Inv_start_fresh; [|done]. intros t p. by apply Inv_all_done.
Qed.

Lemma Inv_init retry_strategy : Inv (init retry_strategy).
Proof. unfold init. by apply Inv_start_fresh. Qed.

Lemma Inv_restarted s : Inv s -> Inv (restarted s).
Proof.
  intros HI. unfold restarted. destruct (closed (_channel s) s); [|done].
  by apply Inv_start, Inv_emit.
Qed.

Lemma Inv_subscribed maxsize s : Inv s -> Inv (subscribed maxsize s).
Proof.
  intros HI. unfold subscribed. destruct (maxsize <? 0)%Z; [done|].
  by apply Inv_alter_channel.
Qed.

Lemma new_receiver_unfold maxsize s :
  snd (new_receiver maxsize s) = subscribed maxsize (restarted s).
Proof.
  unfold new_receiver, subscribed, restarted.
  by destruct (maxsize <? 0)%Z.
Qed.

Lemma Inv_new_receiver maxsize s : Inv s -> Inv (snd (new_receiver maxsize s)).
Proof.
  intros HI. rewrite new_receiver_unfold. by apply Inv_subscribed, Inv_restarted.
Qed.

(** Closing the current channel, whether a pump runs or not. *)
Lemma Inv_close s : Inv s -> Inv (close s).
Proof. intros HI. by apply Inv_alter_channel. Qed.


(** What [stop()] comes to before it is suspended: nothing when no pump
    runs, and otherwise the pump ends as cancelled and the call waits. *)
Lemma stop_cancel_unfold s :
  stop_cancel s =
    if running s then
      match _task s with
      | Some t => set_stopping (S (stopping s)) (set_pump t Cancelled s)
      | None => s
      end
    else s.
Proof.
  unfold stop_cancel. destruct (running s) eqn:Hr; [|done].
  destruct (running_Some s Hr) as (t & p & Ht & Hp & Hd).
  rewrite Ht, (cancel_live t s p Hp Hd). simpl.
  rewrite list_lookup_insert_eq by by eapply lookup_lt_Some. done.
Qed.

(** What a suspended [stop()] call does when it is resumed. *)
Lemma stop_close_unfold s s' :
  stop_close s = Some s' ->
  exists n, stopping s = S n /\ s' = close (set_stopping n s).
Proof.
  unfold stop_close. destruct (stopping s) as [|n]; [done|].
  intros [= <-]. by exists n.
Qed.


Lemma Inv_stop_cancel s : Inv s -> Inv (stop_cancel s).
Proof.
  intros HI. rewrite stop_cancel_unfold.
  destruct (running s) eqn:Hr; [|done].
  destruct (running_Some s Hr) as (t & p & Ht & Hp & Hd).
  rewrite Ht. apply Inv_set_stopping.
  eapply Inv_set_pump; [exact HI|exact Hp|exact Hd|done|done].
Qed.

Lemma Inv_stop_close s s' : Inv s -> stop_close s = Some s' -> Inv s'.
Proof.
  intros HI (n & _ & ->)%stop_close_unfold.
  by apply Inv_close, Inv_set_stopping.
Qed.

Lemma Inv_receive c r s s' : Inv s -> receive c r s = Some s' -> Inv s'.
Proof.
  intros HI. unfold receive.
  destruct (channels s !! c) as [b|]; [|done].
  destruct (receivers b !! r) as [rc|]; [|done].
  destruct (queue rc); [done|].
  intros [= <-]. by apply Inv_alter_channel.
Qed.

Lemma Inv_exec a s s' : Inv s -> exec a s = Some s' -> Inv s'.
Proof.
  intros HI. destruct a as [|maxsize| | |t|c r]; simpl.
  - intros [= <-]. by apply Inv_start.
  - intros [= <-]. by apply Inv_new_receiver.
  - intros [= <-]. by apply Inv_stop_cancel.
  - by apply Inv_stop_close.
  - by apply Inv_run_task.
  - by apply Inv_receive.
Qed.

Lemma Inv_run acts s s' : Inv s -> run acts s = Some s' -> Inv s'.
Proof.
  revert s. induction acts as [|a acts IH]; intros s HI; simpl.
  - by intros [= <-].
  - destruct (exec a s) as [s1|] eqn:Ha; [|done].
    apply IH. by eapply Inv_exec.
Qed.

Lemma reachable_Inv retry_strategy s : reachable retry_strategy s -> Inv s.
Proof. intros [acts Hrun]. eapply Inv_run; [apply Inv_init|exact Hrun]. Qed.

Lemma run_app acts1 acts2 s :
  run (acts1 ++ acts2) s = run acts1 s ≫= run acts2.
Proof.
  revert s. induction acts1 as [|a acts1 IH]; intros s; simpl; [done|].
  destruct (exec a s); [apply IH|done].
Qed.


(** *** What the receivers of a channel see *)

Lemma handed_refl c s : handed c [] s s.
Proof. intros r rc Hr. exists rc. by rewrite app_nil_r. Qed.

Lemma handed_trans c ys1 ys2 s1 s2 s3 :
  handed c ys1 s1 s2 -> handed c ys2 s2 s3 -> handed c (ys1 ++ ys2) s1 s3.
Proof.
  intros H12 H23 r rc Hr.
  destruct (H12 r rc Hr) as (rc2 & Hr2 & Ho2).
  destruct (H23 r rc2 Hr2) as (rc3 & Hr3 & Ho3).
  exists rc3. split; [done|]. by rewrite Ho3, Ho2, app_assoc.
Qed.

Lemma same_receivers_handed c s s' : same_receivers s s' -> handed c [] s s'.
Proof. intros Hs r rc Hr. exists rc. by rewrite Hs, app_nil_r. Qed.



Lemma same_receivers_alter f c s :
  (forall b, receivers (f b) = receivers b) ->
  same_receivers s (alter_channel f c s).
Proof.
  intros Hf c' r. unfold receiver_at, alter_channel; simpl.
  rewrite list_lookup_alter. case_decide as Hc; [|done].
  rewrite Hc. destruct (channels s !! c'); simpl; [by rewrite Hf|done].
Qed.

Lemma same_receivers_close s : same_receivers s (close s).
Proof. by apply same_receivers_alter. Qed.

Lemma observed_dequeue rc : observed (dequeue rc) = observed rc.
Proof.
  unfold dequeue, observed. destruct (queue rc) as [|y q] eqn:Hq; simpl.
  - by rewrite Hq.
  - by rewrite <- app_assoc.
Qed.

Lemma handed_consume c c' r s : handed c [] s (alter_channel (consume r) c' s).
Proof.
  intros r' rc. unfold receiver_at, alter_channel; simpl.
  rewrite list_lookup_alter. case_decide as Hc.
  - rewrite Hc. destruct (channels s !! c) as [b|]; simpl; [|done].
    rewrite list_lookup_alter. case_decide as Hr.
    + rewrite Hr. intros ->. simpl. eexists. split; [done|].
      by rewrite observed_dequeue, app_nil_r.
    + intros ->. exists rc. by rewrite app_nil_r.
  - intros ->. exists rc. by rewrite app_nil_r.
Qed.

Lemma handed_add_receiver c c' maxsize s :
  handed c [] s (alter_channel (add_receiver maxsize) c' s).
Proof.
  intros r rc. unfold receiver_at, alter_channel; simpl.
  rewrite list_lookup_alter. case_decide as Hc.
  - rewrite Hc. destruct (channels s !! c) as [b|]; simpl; [|done].
    intros Hr. exists rc. rewrite app_nil_r. split; [|done].
    by apply lookup_app_l_Some.
  - intros ->. exists rc. by rewrite app_nil_r.
Qed.

Lemma handed_deliver c y s : handed c [y] s (alter_channel (deliver y) c s).
Proof.
  intros r rc. unfold receiver_at, alter_channel; simpl.
  rewrite list_lookup_alter_eq.
  destruct (channels s !! c) as [b|]; simpl; [|done].
  rewrite list_lookup_fmap. intros ->. simpl. eexists. split; [done|].
  unfold observed; simpl. by rewrite app_assoc.
Qed.

Lemma handed_deliver_ne c c' y s :
  c <> c' -> handed c [] s (alter_channel (deliver y) c' s).
Proof.
  intros Hne r rc. unfold receiver_at, alter_channel; simpl.
  rewrite list_lookup_alter_ne by done.
  intros ->. exists rc. by rewrite app_nil_r.
Qed.

Lemma handed_start c s : handed c [] s (start s).
Proof.
  unfold start. destruct (running s); [apply handed_refl|].
  intros r rc. unfold receiver_at; simpl.
  destruct (channels s !! c) as [b|] eqn:Hb; simpl; [|done].
  intros Hr. exists rc. rewrite app_nil_r. split; [|done].
  by rewrite (lookup_app_l_Some _ _ _ _ Hb).
Qed.

(** *** What one step of the pump does *)

Lemma moves_set_pump t p' s : moves t p' s (set_pump t p' s).
Proof.
  split; try done.
  change (closed (_channel s) (set_pump t p' s)) with (closed (_channel s) s).
  congruence.
Qed.

Lemma moves_terminate t e s :
  exists p', moves t p' s (terminate t e s) /\ done p' = true /\ p' <> Finished.
Proof. eexists. split; [apply moves_set_pump|]. by destruct e. Qed.

Lemma moves_stream_ended t sender error s :
  exists p', moves t p' s (stream_ended t sender error s)
             /\ call_of p' = None /\ calls (stream_ended t sender error s) = calls s.
Proof.
  unfold stream_ended.
  destruct (next_interval (_retry_strategy s)) as [[d|] st].
  - exists (Sleeping sender d). split; [|done].
    split; try done. unfold closed; simpl. congruence.
  - exists Finished. repeat split; try done.
    + exact (same_receivers_close
               (emit ERROR (Giving_up (get_progress st) (error_str error))
                  (set_strategy st s))).
    + intros c Hc.
      exact (closed_close_mono c
               (emit ERROR (Giving_up (get_progress st) (error_str error))
                  (set_strategy st s)) Hc).
    + intros c Hc.
      exact (closed_close_ne c
               (emit ERROR (Giving_up (get_progress st) (error_str error))
                  (set_strategy st s)) Hc).
    + simpl. by rewrite length_alter.
Qed.

Lemma moves_raised_in_try t sender e s :
  exists p', moves t p' s (raised_in_try t sender e s)
             /\ call_of p' = None /\ calls (raised_in_try t sender e s) = calls s.
Proof.
  unfold raised_in_try. destruct (is_AioRpcError e).
  - apply moves_stream_ended.
  - destruct (moves_terminate t e s) as (p' & Hm & Hd & _).
    exists p'. split; [done|]. split; [|done]. by destruct p'.
Qed.

Lemma moves_attempt t sender s :
  exists p', moves t p' s (attempt t sender s)
             /\ (call_of p' = None \/ p' = Streaming sender (calls s) 0)
             /\ calls (attempt t sender s) = S (calls s).
Proof.
  unfold attempt.
  change (calls (emit INFO Starting_to_stream s)) with (calls s).
  set (s1 := count_call (emit INFO Starting_to_stream s)).
  destruct (stream_method (calls s)).
  - exists (Streaming sender (calls s) 0). split; [|auto].
    split; simpl; auto; [done|]. unfold s1, closed; simpl. congruence.
  - destruct (moves_raised_in_try t sender e s1) as (p' & Hm & Hc & Hn).
    destruct Hm as [M1 M2 M3 M4 M5 M6 M7 M8 M9 M10].
    exists p'. split; [|split; [by left|done]].
    split; [exact M1|exact M2|exact M3|exact M4| |exact M6|exact M7|exact M8
           |exact M9|exact M10].
    simpl in *. lia.
Qed.

(** The three kinds of step: the pump takes an item and transforms it, it
    hands the transformed item to the channel, or it does something that
    involves no item. *)
Lemma run_task_cases t s s' :
  run_task t s = Some s' ->
  exists p, tasks s !! t = Some p /\ done p = false /\
    ((exists sender k i x y,
        p = Streaming sender k i /\ item k i = Yield x /\ transform x = Return y
        /\ s' = set_pump t (Sending sender k i y) s)
     \/ (exists sender k i y,
        p = Sending sender k i y /\ closed sender s = false
        /\ s' = set_pump t (Streaming sender k (S i)) (alter_channel (deliver y) sender s))
     \/ (exists p', moves t p' s s'
        /\ (call_of p' = None \/ call_of p' = Some (calls s) /\ calls s < calls s'))).
Proof.
  unfold run_task. destruct (tasks s !! t) as [p|] eqn:Hp; [|done].
  destruct p as [|sender k i|sender k i y|sender d| | |e]; try done.
  - intros [= <-]. exists Created. repeat split.
    right; right. destruct (moves_attempt t (_channel s) s) as (p' & Hm & Hc & Hn).
    exists p'. split; [done|]. destruct Hc as [Hc| ->]; [by left|right]. simpl. split; [done|lia].
  - intros Hrun. exists (Streaming sender k i). repeat split.
    destruct (item k i) as [x| |e] eqn:Hi.
    + destruct (transform x) as [y|e] eqn:Hx; injection Hrun as <-.
      * left. by exists sender, k, i, x, y.
      * right; right.
        destruct (moves_raised_in_try t sender e s) as (p' & Hm & Hc & _). eauto.
    + injection Hrun as <-. right; right.
      destruct (moves_stream_ended t sender None s) as (p' & Hm & Hc & _). eauto.
    + injection Hrun as <-. right; right.
      destruct (moves_raised_in_try t sender e s) as (p' & Hm & Hc & _). eauto.
  - intros Hrun. exists (Sending sender k i y). repeat split.
    destruct (channels s !! sender) as [b|] eqn:Hb; [|done].
    destruct (is_closed b) eqn:Hcl.
    + injection Hrun as <-. right; right.
      destruct (moves_raised_in_try t sender SenderError s) as (p' & Hm & Hc & _). eauto.
    + destruct (forallb has_room (receivers b)); [|done].
      injection Hrun as <-. right; left. exists sender, k, i, y.
      repeat split. unfold closed. by rewrite Hb.
  - intros [= <-]. exists (Sleeping sender d). repeat split.
    right; right. destruct (moves_attempt t sender s) as (p' & Hm & Hc & Hn).
    exists p'. split; [done|]. destruct Hc as [Hc| ->]; [by left|right]. simpl. split; [done|lia].
Qed.

Lemma start_running s : running s = true -> start s = s.
Proof. intros Hr. unfold start. by rewrite Hr. Qed.

Lemma tasks_start s t p : tasks s !! t = Some p -> tasks (start s) !! t = Some p.
Proof.
  intros Hp. unfold start. destruct (running s); [done|]. simpl.
  by apply lookup_app_l_Some.
Qed.

Lemma channels_start s c b :
  channels s !! c = Some b -> channels (start s) !! c = Some b.
Proof.
  intros Hb. unfold start. destruct (running s); [done|]. simpl.
  by apply lookup_app_l_Some.
Qed.

Lemma closed_start c s : closed c s = true -> closed c (start s) = true.
Proof.
  unfold closed. destruct (channels s !! c) as [b|] eqn:Hb; [|done].
  by rewrite (channels_start s c b Hb).
Qed.

Lemma calls_start s : calls (start s) = calls s.
Proof. unfold start. by destruct (running s). Qed.

Lemma tasks_restarted s t p :
  tasks s !! t = Some p -> tasks (restarted s) !! t = Some p.
Proof.
  intros Hp. unfold restarted. destruct (closed (_channel s) s); [|done].
  by apply tasks_start.
Qed.

Lemma calls_restarted s : calls (restarted s) = calls s.
Proof.
  unfold restarted. destruct (closed (_channel s) s); [|done].
  by rewrite calls_start.
Qed.

Lemma handed_restarted c s : handed c [] s (restarted s).
Proof.
  unfold restarted. destruct (closed (_channel s) s); [|apply handed_refl].
  apply (handed_start c (emit WARNING Stream_stopped s)).
Qed.

Lemma closed_restarted c s : closed c s = true -> closed c (restarted s) = true.
Proof.
  intros Hc. unfold restarted. destruct (closed (_channel s) s); [|done].
  by apply (closed_start c (emit WARNING Stream_stopped s)).
Qed.

(** Asking the channel for a receiver changes the receivers of the current
    channel and nothing else. *)
Record same_but_receivers (s s' : state) : Prop := {
  but_strategy : _retry_strategy s' = _retry_strategy s;
  but_task : _task s' = _task s;
  but_channel : _channel s' = _channel s;
  but_tasks : tasks s' = tasks s;
  but_calls : calls s' = calls s;
  but_log : log s' = log s;
  but_stopping : stopping s' = stopping s;
  but_closed : forall c, closed c s' = closed c s;
  but_length : length (channels s') = length (channels s);
  but_running : running s' = running s;
}.

Lemma subscribed_frame maxsize s : same_but_receivers s (subscribed maxsize s).
Proof.
  unfold subscribed. destruct (maxsize <? 0)%Z; [by split|].
  split; try done.
  - intros c. by rewrite closed_alter_channel.
  - simpl. by rewrite length_alter.
Qed.

Lemma handed_subscribed c maxsize s : handed c [] s (subscribed maxsize s).
Proof.
  unfold subscribed. destruct (maxsize <? 0)%Z;
    [apply handed_refl|apply handed_add_receiver].
Qed.

(** [stop()] before its suspension and a resumed [stop()] leave the
    receivers alone. *)
Lemma same_receivers_stop_cancel s : same_receivers s (stop_cancel s).
Proof.
  rewrite stop_cancel_unfold. destruct (running s); [|done].
  by destruct (_task s).
Qed.

Lemma same_receivers_stop_close s s' :
  stop_close s = Some s' -> same_receivers s s'.
Proof.
  intros (n & _ & ->)%stop_close_unfold.
  exact (same_receivers_close (set_stopping n s)).
Qed.

Lemma closed_stop_close c s s' :
  stop_close s = Some s' -> closed c s = true -> closed c s' = true.
Proof.
  intros (n & _ & ->)%stop_close_unfold Hc.
  by apply (closed_close_mono c (set_stopping n s)).
Qed.

(** [exec a s = Some s'] for an operation that always runs: name its result. *)
Ltac exec_result H :=
  match type of H with
  | Some ?x = Some ?y => assert (y = x) as -> by congruence; clear H
  end.

(** A task changes only while it is not done; when it changes it stays with
    its stream, or leaves it, or starts on the stream requested last. *)
Lemma exec_task a s s' t p :
  exec a s = Some s' -> tasks s !! t = Some p ->
  calls s <= calls s' /\
  exists p', tasks s' !! t = Some p' /\
    (p' = p \/
     done p = false /\
     (call_of p' = call_of p \/ call_of p' = None
      \/ call_of p' = Some (calls s) /\ calls s < calls s')).
Proof.
  intros Ha Hp. destruct a as [|maxsize| | |t'|c r]; cbn [exec] in Ha.
  - exec_result Ha. rewrite calls_start. split; [done|].
    exists p. split; [by apply tasks_start|by left].
  - exec_result Ha. rewrite new_receiver_unfold.
    destruct (subscribed_frame maxsize (restarted s)) as [_ _ _ -> -> _ _ _ _ _].
    rewrite calls_restarted. split; [done|].
    exists p. split; [by apply tasks_restarted|by left].
  - exec_result Ha. rewrite stop_cancel_unfold.
    destruct (running s) eqn:Hr; [|by eauto].
    destruct (running_Some s Hr) as (t0 & p0 & Ht0 & Hp0 & Hd0).
    rewrite Ht0. simpl. split; [done|].
    destruct (decide (t0 = t)) as [->|Hne].
    + exists Cancelled. split.
      * apply list_lookup_insert_eq. by eapply lookup_lt_Some.
      * right. split; [congruence|]. by right; left.
    + exists p. split; [by rewrite list_lookup_insert_ne|by left].
  - apply stop_close_unfold in Ha as (n & _ & ->). simpl. eauto.
  - destruct (run_task_cases t' s s' Ha) as (p0 & Hp0 & Hd0 & Hcases).
    assert (Hlt : t' < length (tasks s)) by by eapply lookup_lt_Some.
    destruct Hcases as
      [(sender & k & i & x & y & -> & Hi & Hx & ->)
      |[(sender & k & i & y & -> & Hc & ->)
       |(p' & Hm & Hcall)]]; simpl.
    + split; [done|]. destruct (decide (t' = t)) as [->|Hne].
      * eexists. split; [by apply list_lookup_insert_eq|].
        right. split; [congruence|]. left. simplify_eq. done.
      * exists p. split; [by rewrite list_lookup_insert_ne|by left].
    + split; [done|]. destruct (decide (t' = t)) as [->|Hne].
      * eexists. split; [by apply list_lookup_insert_eq|].
        right. split; [congruence|]. left. simplify_eq. done.
      * exists p. split; [by rewrite list_lookup_insert_ne|by left].
    + destruct Hm as [Htasks _ _ _ Hcalls _ _ _]. split; [done|].
      rewrite Htasks. destruct (decide (t' = t)) as [->|Hne].
      * exists p'. split; [by apply list_lookup_insert_eq|].
        right. split; [congruence|]. by right.
      * exists p. split; [by rewrite list_lookup_insert_ne|by left].
  - unfold receive in Ha.
    destruct (channels s !! c) as [b|]; [|done].
    destruct (receivers b !! r) as [rc|]; [|done].
    destruct (queue rc); [done|]. injection Ha as <-.
    split; [done|]. exists p. split; [done|by left].
Qed.

(** A task that is done stays as it is. *)
Lemma run_done acts s s' t p :
  run acts s = Some s' -> tasks s !! t = Some p -> done p = true ->
  tasks s' !! t = Some p.
Proof.
  revert s. induction acts as [|a acts IH]; intros s; simpl.
  - by intros [= <-].
  - destruct (exec a s) as [s1|] eqn:Ha; [|done].
    intros Hrun Hp Hd.
    destruct (exec_task a s s1 t p Ha Hp) as (_ & p' & Hp' & [->|[? _]]);
      [by eapply IH|congruence].
Qed.

(** A closed channel stays closed, and its receivers are handed nothing. *)
Lemma exec_closed a s s' c :
  exec a s = Some s' -> closed c s = true ->
  closed c s' = true /\ handed c [] s s'.
Proof.
  intros Ha Hc. destruct a as [|maxsize| | |t|c' r]; cbn [exec] in Ha.
  - exec_result Ha. split; [by apply closed_start|apply handed_start].
  - exec_result Ha. rewrite new_receiver_unfold. split.
    + rewrite (but_closed _ _ (subscribed_frame maxsize (restarted s))).
      by apply closed_restarted.
    + apply (handed_trans c [] [] s (restarted s)); [apply handed_restarted|].
      apply handed_subscribed.
  - exec_result Ha. split.
    + rewrite stop_cancel_unfold. destruct (running s); [|done].
      by destruct (_task s).
    + apply same_receivers_handed, same_receivers_stop_cancel.
  - split; [by eapply closed_stop_close|].
    by apply same_receivers_handed, same_receivers_stop_close.
  - destruct (run_task_cases t s s' Ha) as (p0 & Hp0 & Hd0 & Hcases).
    destruct Hcases as
      [(sender & k & i & x & y & -> & Hi & Hx & ->)
      |[(sender & k & i & y & -> & Hopen & ->)
       |(p' & Hm & Hcall)]].
    + split; [done|by apply same_receivers_handed].
    + split.
      * change (closed c (alter_channel (deliver y) sender s) = true).
        by rewrite closed_alter_channel.
      * apply (handed_deliver_ne c sender y s). congruence.
    + split; [by apply (moves_closed _ _ _ _ Hm)|].
      by apply same_receivers_handed, (moves_receivers _ _ _ _ Hm).
  - unfold receive in Ha.
    destruct (channels s !! c') as [b|]; [|done].
    destruct (receivers b !! r) as [rc|]; [|done].
    destruct (queue rc); [done|]. injection Ha as <-. split.
    + by rewrite closed_alter_channel.
    + apply handed_consume.
Qed.

Lemma run_closed acts s s' c :
  run acts s = Some s' -> closed c s = true ->
  closed c s' = true /\ handed c [] s s'.
Proof.
  revert s. induction acts as [|a acts IH]; intros s; simpl.
  - intros [= <-] Hc. split; [done|apply handed_refl].
  - destruct (exec a s) as [s1|] eqn:Ha; [|done].
    intros Hrun Hc.
    destruct (exec_closed a s s1 c Ha Hc) as [Hc1 Hh1].
    destruct (IH s1 Hrun Hc1) as [Hc' Hh'].
    split; [done|]. apply (handed_trans c [] [] s s1 s' Hh1 Hh').
Qed.

(** *** Fan-out during one connection attempt *)

Lemma left_attempt_step a s s' t k :
  left_attempt t k s -> exec a s = Some s' -> left_attempt t k s'.
Proof.
  intros (p & Hp & Hk & Hlt) Ha.
  destruct (exec_task a s s' t p Ha Hp) as (Hcalls & p' & Hp' & Hcases).
  exists p'. split; [done|]. split; [|lia].
  destruct Hcases as [->|(_ & [->|[->|[-> _]]])]; try done.
  intros [= Heq]. lia.
Qed.

Lemma in_attempt_step a s s' t c k xs s0 ys :
  produces k xs -> Inv s -> in_attempt t c k xs s0 ys s -> exec a s = Some s' ->
  (exists ys', in_attempt t c k xs s0 ys' s') \/ left_attempt t k s'.
Proof.
  intros [Hxs Hend] HI (Hpc & Hys & Hlen & Hh) Ha.
  (* the task is live, so it is the current one and the channel is open *)
  assert (exists p, tasks s !! t = Some p /\ done p = false /\ call_of p = Some k)
    as (p & Hp & Hd & Hcall).
  { destruct Hpc as [Hp|[y Hp]]; eexists; (split; [exact Hp|done]). }
  pose proof (Inv_live s t p HI Hp Hd) as Ht.
  assert (Hk : k < calls s).
  { pose proof (inv_bound s HI t p Hp) as Hb.
    destruct p; simplify_eq/=; destruct Hb as (_ & Hb); [done|by destruct Hb]. }
  assert (Hrun : running s = true).
  { by rewrite (running_false_done s t p Ht Hp), Hd. }
  assert (Hquiet : forall s1,
             tasks s1 = tasks s -> handed c [] s s1 ->
             exists ys', in_attempt t c k xs s0 ys' s1).
  { intros s1 Htasks Hh1. exists ys. unfold in_attempt. rewrite Htasks.
    split; [done|]. split; [done|]. split; [done|].
    rewrite <- (app_nil_r ys). by eapply handed_trans. }
  destruct a as [|maxsize| | |t'|c' r]; cbn [exec] in Ha.
  - exec_result Ha. rewrite (start_running s Hrun).
    left. by exists ys.
  - exec_result Ha. rewrite new_receiver_unfold. left. apply Hquiet.
    + rewrite (but_tasks _ _ (subscribed_frame maxsize (restarted s))).
      unfold restarted. destruct (closed (_channel s) s); [|done].
      by rewrite (start_running (emit WARNING Stream_stopped s)).
    + apply (handed_trans c [] [] s (restarted s));
        [apply handed_restarted|apply handed_subscribed].
  - exec_result Ha. rewrite stop_cancel_unfold, Hrun, Ht. simpl.
    right. exists Cancelled. simpl. split; [|done].
    apply list_lookup_insert_eq. by eapply lookup_lt_Some.
  - left. apply Hquiet.
    + by apply stop_close_unfold in Ha as (n & _ & ->).
    + by apply same_receivers_handed, same_receivers_stop_close.
  - destruct (run_task_cases t' s s' Ha) as (p0 & Hp0 & Hd0 & Hcases).
    assert (t' = t) as ->.
    { pose proof (inv_one s HI t' p0 Hp0 Hd0). congruence. }
    assert (Hlt : t < length (tasks s)) by by eapply lookup_lt_Some.
    destruct Hcases as
      [(sender & k0 & i & x & y & -> & Hi & Hx & ->)
      |[(sender & k0 & i & y & -> & Hcl & ->)
       |(p' & Hm & Hcall')]].
    + left. exists ys.
      destruct Hpc as [Hpc|[y' Hpc]]; [|congruence].
      assert (sender = c /\ k0 = k /\ i = length ys) as (-> & -> & ->)
        by (split_and!; congruence).
      split; [|done]. right. exists y. simpl. by apply list_lookup_insert_eq.
    + destruct Hpc as [Hpc|[y' Hpc]]; [congruence|].
      assert (sender = c /\ k0 = k /\ i = length ys /\ y' = y) as (-> & -> & -> & ->)
        by (split_and!; congruence).
      pose proof (inv_bound s HI t _ Hpc) as (_ & _ & x & Hi & Hx).
      assert (Hin : length ys < length xs).
      { destruct (decide (length ys = length xs)) as [Heq|]; [|lia].
        rewrite Heq in Hi. congruence. }
      destruct (lookup_lt_is_Some_2 xs (length ys) Hin) as [x' Hx'].
      assert (x' = x) as -> by (apply Hxs in Hx'; congruence).
      left. exists (ys ++ [y]). unfold in_attempt. rewrite length_app. simpl.
      replace (length ys + 1) with (S (length ys)) by lia.
      repeat split.
      * left. simpl. by apply list_lookup_insert_eq.
      * rewrite (take_S_r _ _ _ Hx'). apply Forall2_app; [done|]. by constructor.
      * lia.
      * eapply handed_trans; [exact Hh|].
        apply (handed_deliver c y s).
    + right. pose proof (moves_tasks _ _ _ _ Hm) as Htasks.
      pose proof (moves_calls _ _ _ _ Hm) as Hcalls.
      exists p'. rewrite Htasks. split; [by apply list_lookup_insert_eq|].
      split; [|lia]. destruct Hcall' as [->|[-> _]]; [done|].
      intros [= Heq]. lia.
  - left. exists ys. unfold receive in Ha.
    destruct (channels s !! c') as [b|]; [|done].
    destruct (receivers b !! r) as [rc|]; [|done].
    destruct (queue rc); [done|]. injection Ha as <-.
    repeat split; try done.
    rewrite <- (app_nil_r ys).
    eapply handed_trans; [exact Hh|apply handed_consume].
Qed.

Lemma left_attempt_run acts s s' t k :
  left_attempt t k s -> run acts s = Some s' -> left_attempt t k s'.
Proof.
  revert s. induction acts as [|a acts IH]; intros s HL; simpl.
  - by intros [= <-].
  - destruct (exec a s) as [s1|] eqn:Ha; [|done].
    apply IH. by eapply left_attempt_step.
Qed.

Lemma in_attempt_run acts s s' t c k xs s0 ys :
  produces k xs -> Inv s -> in_attempt t c k xs s0 ys s -> run acts s = Some s' ->
  (exists ys', in_attempt t c k xs s0 ys' s') \/ left_attempt t k s'.
Proof.
  intros Hprod. revert s ys.
  induction acts as [|a acts IH]; intros s ys HI HJ; simpl.
  - intros [= <-]. left. by exists ys.
  - destruct (exec a s) as [s1|] eqn:Ha; [|done].
    intros Hrun.
    destruct (in_attempt_step a s s1 t c k xs s0 ys Hprod HI HJ Ha) as [[ys1 HJ1]|HL].
    + eapply IH; [by eapply Inv_exec|exact HJ1|exact Hrun].
    + right. by eapply left_attempt_run.
Qed.

(** The fan-out of one attempt: from the first [__anext__] of stream [k] to
    its end, whatever happens in between, every receiver the channel had at
    the start is handed the transformed items, all of them and in order. *)
Lemma fan_out acts s0 s1 t c k xs :
  Inv s0 -> produces k xs ->
  tasks s0 !! t = Some (Streaming c k 0) ->
  run acts s0 = Some s1 ->
  tasks s1 !! t = Some (Streaming c k (length xs)) ->
  exists ys, transformed xs ys /\ handed c ys s0 s1.
Proof.
  intros HI Hprod Hp0 Hrun Hp1.
  assert (HJ0 : in_attempt t c k xs s0 [] s0).
  { repeat split; simpl; [by left|constructor|lia|apply handed_refl]. }
  destruct (in_attempt_run acts s0 s1 t c k xs s0 [] Hprod HI HJ0 Hrun)
    as [[ys (Hpc & Hys & Hlen & Hh)]|(p & Hp & Hcall & _)].
  - exists ys. split; [|done].
    assert (length ys = length xs) as Heq.
    { destruct Hpc as [Hpc|[y Hpc]]; congruence. }
    rewrite Heq in Hys. by rewrite firstn_all in Hys.
  - rewrite Hp1 in Hp. by simplify_eq.
Qed.

(** *** When no pump runs *)

Lemma length_channels_start s : length (channels s) <= length (channels (start s)).
Proof.
  unfold start. destruct (running s); [done|]. simpl. rewrite length_app. lia.
Qed.

Lemma running_start_channel s :
  running s = false -> _channel (start s) = length (channels s).
Proof. intros Hr. unfold start. by rewrite Hr. Qed.

Lemma idle_since_start s s1 : idle_since s s1 -> idle_since s (start s1).
Proof.
  intros (HI & Hlen & Hch). split; [by apply Inv_start|].
  pose proof (length_channels_start s1). split; [lia|].
  destruct (running s1) eqn:Hr.
  - rewrite (start_running s1 Hr), Hr. exact Hch.
  - intros _. rewrite (running_start_channel s1 Hr). lia.
Qed.

Lemma idle_since_step a s s1 s2 :
  idle_since s s1 -> exec a s1 = Some s2 ->
  idle_since s s2 /\ forall c, c < length (channels s) -> handed c [] s1 s2.
Proof.
  intros Hidle Ha.
  assert (HI2 : Inv s2) by (eapply Inv_exec; [apply Hidle|exact Ha]).
  destruct Hidle as (HI & Hlen & Hch).
  destruct a as [|maxsize| | |t|c' r]; cbn [exec] in Ha.
  - exec_result Ha. split; [by apply idle_since_start|].
    intros c _. apply handed_start.
  - exec_result Ha. revert HI2. rewrite new_receiver_unfold. intros HI2.
    assert (Hidle' : idle_since s (restarted s1)).
    { unfold restarted. destruct (closed (_channel s1) s1); [|(split; [done|by split])].
      apply (idle_since_start s (emit WARNING Stream_stopped s1)).
      split; [by apply Inv_emit|by split]. }
    destruct Hidle' as (_ & Hlen' & Hch').
    destruct (subscribed_frame maxsize (restarted s1))
      as [_ _ Hchan _ _ _ _ _ Hl Hrun].
    split.
    + split; [done|]. rewrite Hl, Hchan, Hrun. by split.
    + intros c _. apply (handed_trans c [] [] s1 (restarted s1));
        [apply handed_restarted|apply handed_subscribed].
  - exec_result Ha. split.
    + split; [done|]. revert HI2. rewrite stop_cancel_unfold.
      destruct (running s1) eqn:Hr; [|intros _; split; [done|congruence]].
      destruct (running_Some s1 Hr) as (t & p & Ht & Hp & Hd).
      rewrite Ht. intros _. split; [done|].
      unfold running; simpl. rewrite Ht.
      rewrite list_lookup_insert_eq by by eapply lookup_lt_Some. done.
    + intros c _. apply same_receivers_handed, same_receivers_stop_cancel.
  - split.
    + apply stop_close_unfold in Ha as (n & _ & ->).
      split; [done|]. split; [simpl; by rewrite length_alter|done].
    + intros c _. by apply same_receivers_handed, same_receivers_stop_close.
  - destruct (run_task_cases t s1 s2 Ha) as (p & Hp & Hd & Hcases).
    pose proof (Inv_live s1 t p HI Hp Hd) as Ht.
    assert (Hr : running s1 = true)
      by by rewrite (running_false_done s1 t p Ht Hp), Hd.
    specialize (Hch Hr).
    destruct Hcases as
      [(sender & k & i & x & y & -> & Hi & Hx & ->)
      |[(sender & k & i & y & -> & Hcl & ->)
       |(p' & Hm & Hcall)]].
    + split; [(split; [done|by split])|]. intros c _. by apply same_receivers_handed.
    + pose proof (inv_bound s1 HI t _ Hp) as (-> & _). split.
      * split; [done|]. split; [simpl; by rewrite length_alter|].
        intros _. exact Hch.
      * intros c Hc. apply (handed_deliver_ne c (_channel s1) y s1). lia.
    + pose proof (moves_channel _ _ _ _ Hm) as Hchan.
      pose proof (moves_length _ _ _ _ Hm) as Hl. split.
      * split; [done|]. rewrite Hl, Hchan. by split.
      * intros c _. by apply same_receivers_handed, (moves_receivers _ _ _ _ Hm).
  - unfold receive in Ha.
    destruct (channels s1 !! c') as [b|]; [|done].
    destruct (receivers b !! r) as [rc|]; [|done].
    destruct (queue rc); [done|]. injection Ha as <-. split.
    + split; [done|]. split; [simpl; by rewrite length_alter|done].
    + intros c _. apply handed_consume.
Qed.

Lemma idle_since_run acts s s1 s' c :
  idle_since s s1 -> run acts s1 = Some s' ->
  c < length (channels s) -> handed c [] s1 s'.
Proof.
  intros Hidle Hrun Hc. revert s1 Hidle Hrun.
  induction acts as [|a acts IH]; intros s1 Hidle; simpl.
  - intros [= <-]. apply handed_refl.
  - destruct (exec a s1) as [s2|] eqn:Ha; [|done]. intros Hrun.
    destruct (idle_since_step a s s1 s2 Hidle Ha) as [Hidle2 Hh].
    apply (handed_trans c [] [] s1 s2 s'); [by apply Hh|by eapply IH].
Qed.

(** Once no pump runs, no receiver that exists is handed anything any more,
    whatever happens afterwards: a pump started later serves a new channel. *)
Lemma idle_receivers acts s s' c :
  Inv s -> running s = false -> run acts s = Some s' ->
  c < length (channels s) -> handed c [] s s'.
Proof.
  intros HI Hr Hrun Hc. eapply idle_since_run; [|exact Hrun|exact Hc].
  split; [done|]. split; [done|congruence].
Qed.

(** *** A channel that is left open *)

Lemma closed_start_lt c s :
  c < length (channels s) -> closed c (start s) = closed c s.
Proof.
  intros Hc. unfold start. destruct (running s); [done|].
  unfold closed; simpl. by rewrite lookup_app_l.
Qed.

Lemma left_open_start c s : left_open c s -> left_open c (start s).
Proof.
  intros (HI & Hopen & Hc & Hcur). split; [by apply Inv_start|].
  rewrite closed_start_lt by done.
  pose proof (length_channels_start s). split; [done|]. split; [lia|].
  destruct (running s) eqn:Hr.
  - rewrite (start_running s Hr). intros Heq. destruct (Hcur Heq). congruence.
  - rewrite (running_start_channel s Hr). lia.
Qed.

Lemma left_open_step a c s s' :
  left_open c s -> exec a s = Some s' -> left_open c s'.
Proof.
  intros Hleft Ha.
  assert (HI' : Inv s') by (eapply Inv_exec; [apply Hleft|exact Ha]).
  destruct Hleft as (HI & Hopen & Hc & Hcur).
  destruct a as [|maxsize| | |t|c' r]; cbn [exec] in Ha.
  - exec_result Ha. by apply left_open_start.
  - exec_result Ha. revert HI'. rewrite new_receiver_unfold. intros HI'.
    assert (Hleft' : left_open c (restarted s)).
    { unfold restarted. destruct (closed (_channel s) s); [|done].
      apply (left_open_start c (emit WARNING Stream_stopped s)).
      split; [by apply Inv_emit|done]. }
    destruct Hleft' as (_ & Hopen' & Hc' & Hcur').
    destruct (subscribed_frame maxsize (restarted s))
      as [_ _ Hchan _ _ _ Hst Hcl Hl Hrun].
    split; [done|]. rewrite Hcl, Hl, Hchan, Hrun, Hst. done.
  - exec_result Ha. revert HI'. rewrite stop_cancel_unfold.
    destruct (running s) eqn:Hr.
    2:{ intros _. split; [done|]. split; [done|]. split; [done|].
        intros Heq. split; [exact Hr|by destruct (Hcur Heq)]. }
    destruct (running_Some s Hr) as (t & p & Ht & Hp & Hd).
    rewrite Ht. intros HI'.
    assert (Hne : c <> _channel s)
      by (intros ->; destruct (Hcur eq_refl); congruence).
    split; [done|]. split; [done|]. split; [done|]. simpl. congruence.
  - apply stop_close_unfold in Ha as (n & Hn & ->).
    assert (Hne : c <> _channel s)
      by (intros ->; destruct (Hcur eq_refl); congruence).
    split; [done|]. split; [|split].
    + by rewrite (closed_close_ne c (set_stopping n s)).
    + simpl. by rewrite length_alter.
    + simpl. congruence.
  - destruct (run_task_cases t s s' Ha) as (p & Hp & Hd & Hcases).
    pose proof (Inv_live s t p HI Hp Hd) as Ht.
    assert (Hr : running s = true)
      by by rewrite (running_false_done s t p Ht Hp), Hd.
    assert (Hne : c <> _channel s)
      by (intros ->; destruct (Hcur eq_refl); congruence).
    destruct Hcases as
      [(sender & k & i & x & y & -> & Hi & Hx & ->)
      |[(sender & k & i & y & -> & Hcl & ->)
       |(p' & Hm & Hcall)]].
    + split; [done|]. split; [done|]. split; [done|]. simpl. congruence.
    + split; [done|]. split; [|split].
      * change (closed c (alter_channel (deliver y) sender s) = false).
        by rewrite closed_alter_channel.
      * simpl. by rewrite length_alter.
      * simpl. congruence.
    + pose proof (moves_channel _ _ _ _ Hm) as Hchan.
      pose proof (moves_length _ _ _ _ Hm) as Hl.
      split; [done|]. rewrite (moves_open _ _ _ _ Hm c Hne), Hl, Hchan.
      split; [done|]. split; [done|congruence].
  - unfold receive in Ha.
    destruct (channels s !! c') as [b|]; [|done].
    destruct (receivers b !! r) as [rc|]; [|done].
    destruct (queue rc); [done|]. injection Ha as <-.
    split; [done|]. rewrite closed_alter_channel by done.
    split; [done|]. split; [simpl; by rewrite length_alter|done].
Qed.

(** A channel whose pump ended without closing it is never closed: nothing
    closes the current channel while no pump runs, and [start()] moves on to
    a new channel. *)
Lemma left_open_run acts c s s' :
  left_open c s -> run acts s = Some s' -> closed c s' = false.
Proof.
  revert s. induction acts as [|a acts IH]; intros s Hleft; simpl.
  - intros [= <-]. apply Hleft.
  - destruct (exec a s) as [s1|] eqn:Ha; [|done].
    apply IH. by eapply left_open_step.
Qed.

(** *** The pump that [start()] spawns *)

(** While a pump runs, the broadcaster keeps its channel. *)
Lemma exec_channel a s s' :
  exec a s = Some s' -> running s = true -> _channel s' = _channel s.
Proof.
  intros Ha Hr. destruct a as [|maxsize| | |t|c r]; cbn [exec] in Ha.
  - exec_result Ha. by rewrite start_running.
  - exec_result Ha. rewrite new_receiver_unfold.
    rewrite (but_channel _ _ (subscribed_frame maxsize (restarted s))).
    unfold restarted. destruct (closed (_channel s) s); [|done].
    by rewrite (start_running (emit WARNING Stream_stopped s)).
  - exec_result Ha. rewrite stop_cancel_unfold, Hr. by destruct (_task s).
  - by apply stop_close_unfold in Ha as (n & _ & ->).
  - destruct (run_task_cases t s s' Ha) as (p & Hp & Hd & Hcases).
    destruct Hcases as
      [(sender & k & i & x & y & -> & Hi & Hx & ->)
      |[(sender & k & i & y & -> & Hcl & ->)
       |(p' & Hm & Hcall)]]; [done|done|apply Hm].
  - unfold receive in Ha.
    destruct (channels s !! c) as [b|]; [|done].
    destruct (receivers b !! r) as [rc|]; [|done].
    destruct (queue rc); [done|]. by injection Ha as <-.
Qed.

Lemma serves_step a t c s s' :
  serves t c s -> exec a s = Some s' -> serves t c s'.
Proof.
  intros (HI & p & Hp & Hc) Ha.
  split; [by eapply Inv_exec|].
  destruct (exec_task a s s' t p Ha Hp) as (_ & p' & Hp' & Hcases).
  exists p'. split; [done|]. intros Hd'.
  assert (Hd : done p = false) by (destruct Hcases as [->|[? _]]; done).
  pose proof (Inv_live s t p HI Hp Hd) as Ht.
  rewrite (exec_channel a s s' Ha); [by apply Hc|].
  by rewrite (running_false_done s t p Ht Hp), Hd.
Qed.

Lemma serves_run acts t c s s' :
  serves t c s -> run acts s = Some s' -> serves t c s'.
Proof.
  revert s. induction acts as [|a acts IH]; intros s Hs; simpl.
  - by intros [= <-].
  - destruct (exec a s) as [s1|] eqn:Ha; [|done].
    apply IH. by eapply serves_step.
Qed.

(** Whenever the task holds a sender, it is a sender of channel [c]. *)
Lemma serves_bound t c s p :
  serves t c s -> tasks s !! t = Some p -> bound c (calls s) p.
Proof.
  intros (HI & p' & Hp' & Hc) Hp. assert (p' = p) as -> by congruence.
  destruct (done p) eqn:Hd; [by apply bound_done|].
  rewrite <- Hc by done. by eapply inv_bound.
Qed.

Lemma serves_start s :
  Inv s -> running s = false ->
  serves (length (tasks s)) (length (channels s)) (start s).
Proof.
  intros HI Hr. split; [by apply Inv_start|].
  exists Created. unfold start. rewrite Hr. simpl.
  split; [by rewrite list_lookup_middle|done].
Qed.

(** *** Receivers are never lost *)



(** *** The pump gets through an attempt when the consumers keep up *)

Lemma receiver_at_consume c r s c' r' :
  receiver_at c' r' (alter_channel (consume r) c s)
  = if decide (c = c' /\ r = r') then dequeue <$> receiver_at c' r' s
    else receiver_at c' r' s.
Proof.
  unfold receiver_at, alter_channel; simpl.
  rewrite list_lookup_alter. destruct (decide (c = c')) as [->|Hc].
  - destruct (channels s !! c') as [b|]; simpl; [|by case_decide].
    rewrite list_lookup_alter. destruct (decide (r = r')) as [->|Hr].
    + by rewrite decide_True.
    + rewrite decide_False; [done|]. by intros [_ ?].
  - rewrite decide_False; [done|]. by intros [? _].
Qed.

Lemma drained_dequeue rc : drained (dequeue rc) = drained rc.
Proof.
  unfold drained. rewrite observed_dequeue. f_equal.
  unfold dequeue. by destruct (queue rc).
Qed.

Lemma drained_empty rc : queue rc = [] -> drained rc = rc.
Proof.
  destruct rc as [l q sn]; simpl. intros ->. unfold drained, observed; simpl.
  by rewrite app_nil_r.
Qed.

(** A consumer empties its receiver. *)
Lemma drain_receiver c r s rc :
  receiver_at c r s = Some rc ->
  exists acts s',
    run acts s = Some s'
    /\ receivers_only s s'
    /\ forall c' r', receiver_at c' r' s'
         = if decide (c = c' /\ r = r') then Some (drained rc)
           else receiver_at c' r' s.
Proof.
  remember (length (queue rc)) as n eqn:Hn.
  revert s rc Hn. induction n as [|n IH]; intros s rc Hn Hrc.
  - exists [], s. split; [done|]. split; [done|].
    intros c' r'. case_decide as Heq; [|done]. destruct Heq as [<- <-].
    rewrite drained_empty; [done|]. by apply nil_length_inv.
  - destruct (queue rc) as [|y q] eqn:Hq; [done|].
    set (s1 := alter_channel (consume r) c s).
    assert (Hrecv : receive c r s = Some s1).
    { unfold receive. unfold receiver_at in Hrc.
      destruct (channels s !! c) as [b|]; simpl in Hrc; [|done].
      by rewrite Hrc, Hq. }
    assert (Hrc1 : receiver_at c r s1 = Some (dequeue rc)).
    { unfold s1. rewrite receiver_at_consume, decide_True by done.
      by rewrite Hrc. }
    destruct (IH s1 (dequeue rc)) as (acts & s' & Hrun & Hframe & Hat);
      [|done|].
    { unfold dequeue. rewrite Hq. simpl. simpl in Hn. lia. }
    exists (Receive c r :: acts), s'. split; [simpl; by rewrite Hrecv|].
    split.
    + destruct Hframe as [Htasks Hchannel Hclosed Hcalls Hlog Hstrategy].
      split; [done|done| |done|done|done].
      intros c'. rewrite Hclosed. unfold s1.
      by rewrite closed_alter_channel.
    + intros c' r'. rewrite Hat. case_decide as Heq.
      * by rewrite drained_dequeue.
      * unfold s1. by rewrite receiver_at_consume, decide_False.
Qed.

(** The consumers empty the first [m] receivers of channel [c]. *)
Lemma drain_receivers c m s :
  exists acts s',
    run acts s = Some s'
    /\ receivers_only s s'
    /\ forall c' r', receiver_at c' r' s'
         = if decide (c = c' /\ r' < m) then drained <$> receiver_at c' r' s
           else receiver_at c' r' s.
Proof.
  induction m as [|m (acts & s1 & Hrun & Hframe & Hat)].
  - exists [], s. split; [done|]. split; [done|].
    intros c' r'. rewrite decide_False; [done|]. intros [_ ?]. lia.
  - destruct (receiver_at c m s1) as [rc|] eqn:Hrc.
    + destruct (drain_receiver c m s1 rc Hrc) as (acts' & s' & Hrun' & Hframe' & Hat').
      exists (acts ++ acts'), s'. split; [by rewrite run_app, Hrun|].
      split.
      * destruct Hframe as [Ht Hc Hcl Hca Hlo Hst],
          Hframe' as [Ht' Hc' Hcl' Hca' Hlo' Hst'].
        split; [congruence|congruence| |congruence|congruence|congruence].
        intros c'. by rewrite Hcl', Hcl.
      * intros c' r'. rewrite Hat'. case_decide as Heq.
        -- destruct Heq as [<- <-]. rewrite decide_True by (split; [done|lia]).
           rewrite Hat, decide_False in Hrc by (intros [_ ?]; lia).
           by rewrite Hrc.
        -- rewrite Hat. destruct (decide (c = c' /\ r' < m)) as [[-> Hlt]|Hn].
           ++ rewrite decide_True; [done|]. split; [done|lia].
           ++ rewrite decide_False; [done|]. intros [-> Hlt].
              destruct (decide (r' = m)) as [->|]; [by apply Heq|].
              apply Hn. split; [done|lia].
    + exists acts, s1. split; [done|]. split; [done|].
      intros c' r'. rewrite Hat.
      destruct (decide (c = c' /\ r' < m)) as [[-> Hlt]|Hn].
      * rewrite decide_True; [done|]. split; [done|lia].
      * destruct (decide (c = c' /\ r' < S m)) as [[-> Hlt]|Hn']; [|done].
        assert (r' = m) as ->.
        { destruct (decide (r' = m)); [done|]. exfalso. apply Hn. split; [done|lia]. }
        rewrite Hat, decide_False in Hrc by (intros [_ ?]; lia).
        by rewrite Hrc.
Qed.

(** The consumers empty every receiver of channel [c]. *)
Lemma drain_channel c s :
  exists acts s',
    run acts s = Some s'
    /\ receivers_only s s'
    /\ (forall r, receiver_at c r s' = drained <$> receiver_at c r s).
Proof.
  set (m := match channels s !! c with Some b => length (receivers b) | None => 0 end).
  destruct (drain_receivers c m s) as (acts & s' & Hrun & Hframe & Hat).
  exists acts, s'. split; [done|]. split; [done|].
  intros r. rewrite Hat. case_decide as Heq; [done|].
  assert (Hnone : receiver_at c r s = None).
  { unfold receiver_at. subst m.
    destruct (channels s !! c) as [b|]; simpl; [|done].
    apply lookup_ge_None_2. destruct (decide (r < length (receivers b))); [|lia].
    exfalso. by apply Heq. }
  by rewrite Hnone.
Qed.

(** After the consumers have emptied the receivers, a send goes through. *)
Lemma send_after_drain t c k i y s :
  tasks s !! t = Some (Sending c k i y) ->
  closed c s = false ->
  c < length (channels s) ->
  (forall r rc, receiver_at c r s = Some rc -> queue rc = [] /\ (0 < limit rc)%Z) ->
  run_task t s
  = Some (set_pump t (Streaming c k (S i)) (alter_channel (deliver y) c s)).
Proof.
  intros Hp Hopen Hc Hroom. unfold run_task. rewrite Hp.
  destruct (lookup_lt_is_Some_2 _ _ Hc) as [b Hb].
  unfold closed in Hopen. rewrite Hb in *. rewrite Hopen.
  assert (Hall : forallb has_room (receivers b) = true).
  { apply forallb_forall. intros rc [r Hrc]%list_elem_of_In%list_elem_of_lookup.
    destruct (Hroom r rc) as [Hq Hl].
    { unfold receiver_at. by rewrite Hb. }
    unfold has_room. rewrite Hq. simpl. by apply Z.ltb_lt. }
  by rewrite Hall.
Qed.

(** From item [i] on, the stream produces [xs], which [transform] takes to
    [ys]: with consumers that empty their receivers before every send, the
    pump gets to the end of [xs], and the consumers have then taken
    everything. *)
Lemma attempt_progress t c k xs ys :
  transformed xs ys ->
  forall i s,
    Inv s ->
    tasks s !! t = Some (Streaming c k i) ->
    closed c s = false ->
    (forall j x, xs !! j = Some x -> item k (i + j) = Yield x) ->
    (forall r rc, receiver_at c r s = Some rc -> (0 < limit rc)%Z) ->
    exists acts s',
      run acts s = Some s'
      /\ tasks s' !! t = Some (Streaming c k (i + length xs))
      /\ (forall r rc', receiver_at c r s' = Some rc' -> queue rc' = [])
      /\ log s' = log s
      /\ calls s' = calls s
      /\ _retry_strategy s' = _retry_strategy s.
Proof.
  induction 1 as [|x y xs ys Hxy Hrest IH]; intros i s HI Hp Hopen Hitems Hlimit.
  - destruct (drain_channel c s)
      as (acts & s' & Hrun & [Htasks _ _ Hcalls Hlog Hstrategy] & Hat).
    exists acts, s'. split; [done|]. split; [|split; [|done]].
    + simpl. by rewrite Htasks, Nat.add_0_r.
    + intros r rc'. rewrite Hat.
      destruct (receiver_at c r s) as [rc|]; simpl; [|done]. by intros [= <-].
  - pose proof (inv_bound s HI t _ Hp) as [-> Hk].
    pose proof (Inv_live s t _ HI Hp eq_refl) as Ht.
    (* the pump takes the item and transforms it *)
    set (s1 := set_pump t (Sending (_channel s) k i y) s).
    assert (H1 : run_task t s = Some s1).
    { pose proof (Hitems 0 x eq_refl) as Hi. rewrite Nat.add_0_r in Hi.
      unfold run_task. by rewrite Hp, Hi, Hxy. }
    pose proof (Inv_run_task t s s1 HI H1) as HI1.
    (* the consumers make room *)
    destruct (drain_channel (_channel s) s1)
      as (acts2 & s2 & H2
          & [Htasks2 Hchannel2 Hclosed2 Hcalls2 Hlog2 Hstrategy2] & Hat2).
    pose proof (Inv_run acts2 s1 s2 HI1 H2) as HI2.
    (* the pump sends *)
    set (s3 := set_pump t (Streaming (_channel s) k (S i))
                 (alter_channel (deliver y) (_channel s) s2)).
    assert (Hlt : t < length (tasks s)) by by eapply lookup_lt_Some.
    assert (H3 : run_task t s2 = Some s3).
    { apply send_after_drain.
      - rewrite Htasks2. simpl. by apply list_lookup_insert_eq.
      - by rewrite Hclosed2.
      - pose proof (inv_channel s2 HI2) as Hc2. by rewrite Hchannel2 in Hc2.
      - intros r rc. rewrite Hat2.
        change (receiver_at (_channel s) r s1) with (receiver_at (_channel s) r s).
        destruct (receiver_at (_channel s) r s) as [rc0|] eqn:Hrc0; simpl; [|done].
        intros [= <-]. split; [done|]. simpl. by eapply Hlimit. }
    pose proof (Inv_run_task t s2 s3 HI2 H3) as HI3.
    destruct (IH (S i) s3)
      as (acts4 & s4 & H4 & Hp4 & Hq4 & Hlog4 & Hcalls4 & Hstrategy4);
      [done| | | | |].
    { simpl. rewrite Htasks2. simpl. rewrite list_insert_insert_eq.
      by apply list_lookup_insert_eq. }
    { change (closed (_channel s) (alter_channel (deliver y) (_channel s) s2) = false).
      rewrite closed_alter_channel by done. by rewrite Hclosed2. }
    { intros j x' Hx'. replace (S i + j) with (i + S j) by lia.
      by apply Hitems. }
    { intros r rc.
      change (receiver_at (_channel s) r s3)
        with (receiver_at (_channel s) r (alter_channel (deliver y) (_channel s) s2)).
      unfold receiver_at at 1, alter_channel; simpl.
      rewrite list_lookup_alter_eq.
      pose proof (Hat2 r) as Hr2. unfold receiver_at at 1 in Hr2.
      destruct (channels s2 !! _channel s) as [b2|]; simpl in *; [|done].
      rewrite list_lookup_fmap, Hr2.
      change (receiver_at (_channel s) r s1) with (receiver_at (_channel s) r s).
      destruct (receiver_at (_channel s) r s) as [rc0|] eqn:Hrc0; simpl; [|done].
      intros [= <-]. simpl. by eapply Hlimit. }
    exists (Run t :: acts2 ++ Run t :: acts4), s4.
    split.
    { simpl. rewrite H1, run_app, H2. simpl. by rewrite H3. }
    split.
    { simpl. by replace (i + S (length xs)) with (S i + length xs) by lia. }
    split; [done|].
    rewrite Hlog4, Hcalls4, Hstrategy4. simpl.
    by rewrite Hlog2, Hcalls2, Hstrategy2.
Qed.

(** **** Any stretch of a stream *)

(** [ys] are the items [i], [i+1], ... of stream [k], transformed. *)
Definition stretch (k i : nat) (ys : list OutputT) : Prop :=
  forall n y, ys !! n = Some y ->
    exists x, item k (i + n) = Yield x /\ transform x = Return y.

(** Task [t], which waited for item [i] of stream [k] in [s0], still
    iterates that stream and has sent [ys] since. *)
Definition in_stretch (t c k i : nat) (s0 : state) (ys : list OutputT)
    (s : state) : Prop :=
  (tasks s !! t = Some (Streaming c k (i + length ys))
   \/ exists y, tasks s !! t = Some (Sending c k (i + length ys) y))
  /\ stretch k i ys
  /\ handed c ys s0 s.

Lemma stretch_snoc k i ys x y :
  stretch k i ys -> item k (i + length ys) = Yield x -> transform x = Return y ->
  stretch k i (ys ++ [y]).
Proof.
  intros Hys Hi Hx n y0 [Hn|[Hge Hn]]%lookup_app_Some; [by apply Hys|].
  apply list_lookup_singleton_Some in Hn as [Hn <-].
  replace n with (length ys) by lia. by exists x.
Qed.

Lemma in_stretch_step a s s' t c k i s0 ys :
  Inv s -> in_stretch t c k i s0 ys s -> exec a s = Some s' ->
  (exists ys', in_stretch t c k i s0 ys' s') \/ left_attempt t k s'.
Proof.
  intros HI (Hpc & Hys & Hh) Ha.
  assert (exists p, tasks s !! t = Some p /\ done p = false /\ call_of p = Some k)
    as (p & Hp & Hd & Hcall).
  { destruct Hpc as [Hp|[y Hp]]; eexists; (split; [exact Hp|done]). }
  pose proof (Inv_live s t p HI Hp Hd) as Ht.
  assert (Hk : k < calls s).
  { pose proof (inv_bound s HI t p Hp) as Hb.
    destruct p; simplify_eq/=; destruct Hb as (_ & Hb); [done|by destruct Hb]. }
  assert (Hrun : running s = true).
  { by rewrite (running_false_done s t p Ht Hp), Hd. }
  assert (Hquiet : forall s1,
             tasks s1 = tasks s -> handed c [] s s1 ->
             exists ys', in_stretch t c k i s0 ys' s1).
  { intros s1 Htasks Hh1. exists ys. unfold in_stretch. rewrite Htasks.
    split; [done|]. split; [done|].
    rewrite <- (app_nil_r ys). by eapply handed_trans. }
  destruct a as [|maxsize| | |t'|c' r]; cbn [exec] in Ha.
  - exec_result Ha. rewrite (start_running s Hrun).
    left. by exists ys.
  - exec_result Ha. rewrite new_receiver_unfold. left. apply Hquiet.
    + rewrite (but_tasks _ _ (subscribed_frame maxsize (restarted s))).
      unfold restarted. destruct (closed (_channel s) s); [|done].
      by rewrite (start_running (emit WARNING Stream_stopped s)).
    + apply (handed_trans c [] [] s (restarted s));
        [apply handed_restarted|apply handed_subscribed].
  - exec_result Ha. rewrite stop_cancel_unfold, Hrun, Ht. simpl.
    right. exists Cancelled. simpl. split; [|done].
    apply list_lookup_insert_eq. by eapply lookup_lt_Some.
  - left. apply Hquiet.
    + by apply stop_close_unfold in Ha as (n & _ & ->).
    + by apply same_receivers_handed, same_receivers_stop_close.
  - destruct (run_task_cases t' s s' Ha) as (p0 & Hp0 & Hd0 & Hcases).
    assert (t' = t) as ->.
    { pose proof (inv_one s HI t' p0 Hp0 Hd0). congruence. }
    assert (Hlt : t < length (tasks s)) by by eapply lookup_lt_Some.
    destruct Hcases as
      [(sender & k0 & i0 & x & y & -> & Hi & Hx & ->)
      |[(sender & k0 & i0 & y & -> & Hcl & ->)
       |(p' & Hm & Hcall')]].
    + left. exists ys.
      destruct Hpc as [Hpc|[y' Hpc]]; [|congruence].
      assert (sender = c /\ k0 = k /\ i0 = i + length ys) as (-> & -> & ->)
        by (split_and!; congruence).
      split; [|done]. right. exists y. simpl. by apply list_lookup_insert_eq.
    + destruct Hpc as [Hpc|[y' Hpc]]; [congruence|].
      assert (sender = c /\ k0 = k /\ i0 = i + length ys /\ y' = y)
        as (-> & -> & -> & ->) by (split_and!; congruence).
      pose proof (inv_bound s HI t _ Hpc) as (_ & _ & x & Hi & Hx).
      left. exists (ys ++ [y]). unfold in_stretch. rewrite length_app. simpl.
      replace (i + (length ys + 1)) with (S (i + length ys)) by lia.
      split; [|split].
      * left. simpl. by apply list_lookup_insert_eq.
      * by eapply stretch_snoc.
      * eapply handed_trans; [exact Hh|].
        apply (handed_deliver c y s).
    + right. pose proof (moves_tasks _ _ _ _ Hm) as Htasks.
      pose proof (moves_calls _ _ _ _ Hm) as Hcalls.
      exists p'. rewrite Htasks. split; [by apply list_lookup_insert_eq|].
      split; [|lia]. destruct Hcall' as [->|[-> _]]; [done|].
      intros [= Heq]. lia.
  - left. exists ys. unfold receive in Ha.
    destruct (channels s !! c') as [b|]; [|done].
    destruct (receivers b !! r) as [rc|]; [|done].
    destruct (queue rc); [done|]. injection Ha as <-.
    repeat split; try done.
    rewrite <- (app_nil_r ys).
    eapply handed_trans; [exact Hh|apply handed_consume].
Qed.

Lemma in_stretch_run acts s s' t c k i s0 ys :
  Inv s -> in_stretch t c k i s0 ys s -> run acts s = Some s' ->
  (exists ys', in_stretch t c k i s0 ys' s') \/ left_attempt t k s'.
Proof.
  revert s ys.
  induction acts as [|a acts IH]; intros s ys HI HJ; simpl.
  - intros [= <-]. left. by exists ys.
  - destruct (exec a s) as [s1|] eqn:Ha; [|done].
    intros Hrun.
    destruct (in_stretch_step a s s1 t c k i s0 ys HI HJ Ha) as [[ys1 HJ1]|HL].
    + eapply IH; [by eapply Inv_exec|exact HJ1|exact Hrun].
    + right. by eapply left_attempt_run.
Qed.

(** Between two moments at which the task waits for an item of the same
    stream, the receivers the channel had at the first are handed the items
    in between, transformed, and nothing else. *)
Lemma stretch_fan_out acts s0 s1 t c k i j :
  Inv s0 ->
  tasks s0 !! t = Some (Streaming c k i) ->
  run acts s0 = Some s1 ->
  tasks s1 !! t = Some (Streaming c k j) ->
  exists ys, j = i + length ys /\ stretch k i ys /\ handed c ys s0 s1.
Proof.
  intros HI Hp0 Hrun Hp1.
  assert (HJ0 : in_stretch t c k i s0 [] s0).
  { split; [|split]; simpl.
    - left. by rewrite Nat.add_0_r.
    - by intros n y.
    - apply handed_refl. }
  destruct (in_stretch_run acts s0 s1 t c k i s0 [] HI HJ0 Hrun)
    as [[ys (Hpc & Hys & Hh)]|(p & Hp & Hcall & _)].
  - exists ys. split; [|done].
    destruct Hpc as [Hpc|[y Hpc]]; congruence.
  - rewrite Hp1 in Hp. by simplify_eq.
Qed.

(** What [new_receiver] returns and leaves. *)
Lemma new_receiver_cases maxsize s :
  new_receiver maxsize s =
    if (maxsize <? 0)%Z then (Raises (OtherError "ValueError"), restarted s)
    else
      (Return (_channel (restarted s),
               match channels (restarted s) !! _channel (restarted s) with
               | Some b => length (receivers b)
               | None => 0
               end),
       alter_channel (add_receiver maxsize) (_channel (restarted s)) (restarted s)).
Proof. done. Qed.

Lemma new_receiver_empty maxsize s c r s' :
  Inv s -> new_receiver maxsize s = (Return (c, r), s') ->
  Inv s'
  /\ (0 <= maxsize)%Z
  /\ s' = alter_channel (add_receiver maxsize) (_channel (restarted s)) (restarted s)
  /\ c = _channel (restarted s)
  /\ c < length (channels s')
  /\ (forall b, channels (restarted s) !! c = Some b -> r = length (receivers b))
  /\ receiver_at c r s' = Some {| limit := maxsize; queue := []; seen := [] |}.
Proof.
  intros HI. rewrite new_receiver_cases.
  destruct (maxsize <? 0)%Z eqn:Hm; [done|]. intros [= Hc Hr Hs'].
  apply Z.ltb_ge in Hm.
  pose proof (Inv_restarted s HI) as HI1.
  assert (HI' : Inv s') by (subst s'; by apply Inv_alter_channel).
  destruct (lookup_lt_is_Some_2 _ _ (inv_channel _ HI1)) as [b Hb].
  rewrite Hb in Hr.
  split; [done|]. split; [done|]. split; [done|]. split; [done|].
  split; [|split].
  - subst s' c. simpl. rewrite length_alter. apply (inv_channel _ HI1).
  - intros b'. subst c. rewrite Hb. by intros [= <-].
  - subst s' c r. unfold receiver_at, alter_channel; simpl.
    rewrite list_lookup_alter_eq, Hb. simpl. by rewrite list_lookup_middle.
Qed.

(** *** The properties of the specification *)

Lemma live_running s t : Inv s -> live s t -> running s = true.
Proof.
  intros HI (p & Hp & Hd). pose proof (Inv_live s t p HI Hp Hd) as Ht.
  by rewrite (running_false_done s t p Ht Hp), Hd.
Qed.



Lemma orderly_init retry_strategy : orderly (init retry_strategy).
Proof. by split. Qed.

Lemma orderly_start s : Inv s -> orderly s -> stopping s = 0 -> orderly (start s).
Proof.
  intros HI HO Hs. unfold start.
  destruct (running s) eqn:Hr; [done|].
  split; simpl.
  - unfold closed; simpl. by rewrite list_lookup_middle.
  - intros Hn. by rewrite Hs in Hn.
Qed.

Lemma orderly_frame s s' :
  same_but_receivers s s' -> orderly s -> orderly s'.
Proof.
  intros [_ _ Hc _ _ _ Hst Hcl _ Hr] [Hclosed Hstopping].
  split; rewrite ?Hc, ?Hcl, ?Hr, ?Hst; done.
Qed.

(** Every step but a [start()] under a suspended [stop()] keeps the
    execution orderly. *)
Lemma orderly_exec a s s' :
  Inv s -> orderly s -> (a = Start -> stopping s = 0) ->
  exec a s = Some s' -> orderly s'.
Proof.
  intros HI HO Hstart Ha.
  destruct a as [|maxsize| | |t|c r]; cbn [exec] in Ha.
  - exec_result Ha. apply orderly_start; auto.
  - exec_result Ha. rewrite new_receiver_unfold.
    apply (orderly_frame (restarted s)); [apply subscribed_frame|].
    unfold restarted. destruct (closed (_channel s) s) eqn:Hcl; [|done].
    assert (Hs : stopping s = 0).
    { destruct (stopping s) eqn:Hs; [done|].
      destruct (orderly_stopping s HO) as (_ & Hopen & _); [lia|congruence]. }
    apply (orderly_start (emit WARNING Stream_stopped s));
      [by apply Inv_emit| |done].
    destruct HO as [Hclosed Hstopping]. by split.
  - exec_result Ha. rewrite stop_cancel_unfold.
    destruct (running s) eqn:Hr; [|done].
    destruct (running_Some s Hr) as (t & p & Ht & Hp & Hd). rewrite Ht.
    assert (Hlt : t < length (tasks s)) by by eapply lookup_lt_Some.
    assert (Hr' : running (set_stopping (S (stopping s)) (set_pump t Cancelled s))
                  = false).
    { unfold running; simpl. rewrite Ht. by rewrite list_lookup_insert_eq. }
    assert (Hopen : closed (_channel s) s = false).
    { destruct (closed (_channel s) s) eqn:Hcl; [|done].
      apply (orderly_closed s HO) in Hcl. congruence. }
    assert (Hs : stopping s = 0).
    { destruct (stopping s) eqn:Hs; [done|].
      destruct (orderly_stopping s HO) as (Hr0 & _); [lia|congruence]. }
    split; [done|]. intros _. split; [done|]. split; [exact Hopen|].
    simpl. by rewrite Hs.
  - apply stop_close_unfold in Ha as (n & Hn & ->).
    destruct (orderly_stopping s HO) as (Hr & Hopen & Hone); [lia|].
    assert (n = 0) as -> by lia.
    split.
    + intros _. exact Hr.
    + simpl. done.
  - destruct (run_task_cases t s s' Ha) as (p & Hp & Hd & Hcases).
    pose proof (Inv_live s t p HI Hp Hd) as Ht.
    assert (Hr : running s = true).
    { by rewrite (running_false_done s t p Ht Hp), Hd. }
    assert (Hopen : closed (_channel s) s = false).
    { destruct (closed (_channel s) s) eqn:Hcl; [|done].
      apply (orderly_closed s HO) in Hcl. congruence. }
    assert (Hs : stopping s = 0).
    { destruct (stopping s) eqn:Hs; [done|].
      destruct (orderly_stopping s HO) as (Hr0 & _); [lia|congruence]. }
    destruct Hcases as
      [(sender & k & i & x & y & -> & Hi & Hx & ->)
      |[(sender & k & i & y & -> & Hcl & ->)
       |(p' & Hm & _)]].
    + split.
      * change (closed (_channel s) s = true -> running (set_pump t (Sending sender k i y) s) = false).
        congruence.
      * simpl. intros Hn. by rewrite Hs in Hn.
    + split.
      * change (closed (_channel s)
                  (alter_channel (deliver y) sender s) = true ->
                running (set_pump t (Streaming sender k (S i))
                           (alter_channel (deliver y) sender s)) = false).
        rewrite closed_alter_channel by done. congruence.
      * simpl. intros Hn. by rewrite Hs in Hn.
    + destruct Hm as [Htasks Htask Hchannel _ _ _ _ _ Hcloses Hstopping].
      split.
      * rewrite Hchannel. intros Hcl'.
        rewrite (Hcloses Hopen Hcl') in Htasks.
        unfold running. rewrite Htask, Ht, Htasks.
        rewrite list_lookup_insert_eq by by eapply lookup_lt_Some. done.
      * rewrite Hstopping. intros Hn. by rewrite Hs in Hn.
  - unfold receive in Ha.
    destruct (channels s !! c) as [b|]; [|done].
    destruct (receivers b !! r) as [rc|]; [|done].
    destruct (queue rc); [done|]. injection Ha as <-.
    destruct HO as [Hclosed Hstopping].
    split.
    + change (closed (_channel s) (alter_channel (consume r) c s) = true ->
              running s = false).
      by rewrite closed_alter_channel.
    + change (stopping s <> 0 ->
              running s = false
              /\ closed (_channel s) (alter_channel (consume r) c s) = false
              /\ stopping s = 1).
      by rewrite closed_alter_channel.
Qed.

Lemma orderly_run acts s s' :
  Inv s -> orderly s -> start_awaits_stop acts s = true ->
  run acts s = Some s' -> orderly s'.
Proof.
  revert s. induction acts as [|a acts IH]; intros s HI HO; simpl.
  - by intros _ [= <-].
  - destruct (exec a s) as [s1|] eqn:Ha; [|done].
    intros [Hstart Hrest]%andb_prop Hrun.
    eapply IH; [by eapply Inv_exec| |exact Hrest|exact Hrun].
    eapply orderly_exec; [exact HI|exact HO| |exact Ha].
    intros ->. by apply Nat.eqb_eq.
Qed.

(** In such an execution a pump that is alive sends to an open channel and
    no [stop()] call is suspended. *)
Lemma orderly_pump retry_strategy acts s t p :
  run acts (init retry_strategy) = Some s ->
  start_awaits_stop acts (init retry_strategy) = true ->
  tasks s !! t = Some p -> done p = false ->
  closed (_channel s) s = false /\ stopping s = 0.
Proof.
  intros Hrun Horder Hp Hd.
  assert (HI : Inv s) by (apply (reachable_Inv retry_strategy); by exists acts).
  assert (HO : orderly s).
  { eapply orderly_run; [apply Inv_init|apply orderly_init|exact Horder|exact Hrun]. }
  assert (Hr : running s = true).
  { apply (live_running s t HI). by exists p. }
  split.
  - destruct (closed (_channel s) s) eqn:Hcl; [|done].
    apply (orderly_closed s HO) in Hcl. congruence.
  - destruct (stopping s) eqn:Hs; [done|].
    destruct (orderly_stopping s HO) as (Hr0 & _); [lia|congruence].
Qed.


(** C6. [start()] does nothing while a pump runs.  Otherwise it resets the
    strategy, puts a new open channel in the place of the old one and spawns
    a new task, and whenever that task holds a sender it is one of the new
    channel.  Calling it twice is calling it once.  No step of the pump
    resets the strategy: a step leaves it alone or takes one
    [next_interval()] from it. *)
Theorem start_is_idempotent_and_resets retry_strategy s :
  reachable retry_strategy s ->
  (running s = true -> start s = s)
  /\ (running s = false ->
      _retry_strategy (start s) = reset (_retry_strategy s)
      /\ channels (start s) = channels s ++ [Broadcast]
      /\ _channel (start s) = length (channels s)
      /\ _channel (start s) <> _channel s
      /\ tasks (start s) = tasks s ++ [Created]
      /\ _task (start s) = Some (length (tasks s))
      /\ calls (start s) = calls s
      /\ log (start s) = log s
      /\ forall acts s' p,
           run acts (start s) = Some s' ->
           tasks s' !! length (tasks s) = Some p ->
           bound (length (channels s)) (calls s') p)
  /\ start (start s) = start s
  /\ (forall t s', run_task t s = Some s' ->
        _retry_strategy s' = _retry_strategy s
        \/ _retry_strategy s' = snd (next_interval (_retry_strategy s))).
Proof.
  intros Hreach. pose proof (reachable_Inv _ _ Hreach) as HI.
  split; [apply start_running|]. split; [|split].
  - intros Hr. pose proof (inv_channel s HI) as Hlt.
    pose proof (serves_start s HI Hr) as Hserves.
    unfold start in *. rewrite Hr in *. simpl. repeat split; try done; try lia.
    intros acts s' p Hrun Hp.
    eapply serves_bound; [|exact Hp].
    eapply serves_run; [exact Hserves|exact Hrun].
  - destruct (running s) eqn:Hr.
    + by rewrite !(start_running s Hr).
    + apply start_running. unfold start. rewrite Hr.
      unfold running. simpl. by rewrite list_lookup_middle.
  - intros t s'. unfold run_task, attempt, raised_in_try, stream_ended, terminate.
    destruct (next_interval (_retry_strategy s)) as [[d|] st] eqn:Hn; simpl;
      intros Hrun; repeat case_match; simplify_eq/=; auto.
Qed.





Lemma next_of_closed c r s rc :
  closed c s = true -> receiver_at c r s = Some rc ->
  next_of c r s = Some (match queue rc with y :: _ => Item y | [] => End_of_stream end).
Proof.
  unfold closed, receiver_at, next_of.
  destruct (channels s !! c) as [b|]; simpl; [|done].
  intros Hcl ->. simpl. unfold next_item. rewrite Hcl. by destruct (queue rc).
Qed.

(** C3. When an attempt ends, by exhaustion or by a transport error, and
    [next_interval()] returns [None], the same step of the pump logs the
    give-up record, closes the channel and returns: no further stream is
    requested.  From then on the channel stays closed and the task stays
    finished, the channel's receivers are handed nothing more, and each of
    them gets what is still buffered and then the end of its iteration. *)
Theorem exhausted_strategy_closes_the_channel retry_strategy s t sender k i error st :
  reachable retry_strategy s ->
  tasks s !! t = Some (Streaming sender k i) ->
  (item k i = StopAsyncIteration /\ error = None
   \/ exists e, item k i = Raise e /\ is_AioRpcError e = true /\ error = Some e) ->
  next_interval (_retry_strategy s) = (None, st) ->
  exists s',
    run_task t s = Some s'
    /\ tasks s' = <[t := Finished]> (tasks s)
    /\ closed sender s' = true
    /\ calls s' = calls s
    /\ log s' = log s ++ [(ERROR, Giving_up (get_progress st) (error_str error))]
    /\ same_receivers s s'
    /\ running s' = false
    /\ forall acts s'',
         run acts s' = Some s'' ->
         closed sender s'' = true
         /\ tasks s'' !! t = Some Finished
         /\ handed sender [] s' s''
         /\ forall r rc, receiver_at sender r s'' = Some rc ->
              next_of sender r s''
              = Some (match queue rc with y :: _ => Item y | [] => End_of_stream end).
Proof.
  intros Hreach Hp Hitem Hn. pose proof (reachable_Inv _ _ Hreach) as HI.
  pose proof (Inv_live s t _ HI Hp eq_refl) as Ht.
  pose proof (inv_bound s HI t _ Hp) as [-> Hk].
  assert (Hlt : t < length (tasks s)) by by eapply lookup_lt_Some.
  set (s1 := emit ERROR (Giving_up (get_progress st) (error_str error))
               (set_strategy st s)).
  assert (Hrun : run_task t s = Some (set_pump t Finished (close s1))).
  { unfold run_task. rewrite Hp.
    destruct Hitem as [[-> ->]|(e & -> & He & ->)];
      unfold raised_in_try, stream_ended; rewrite ?He, Hn; done. }
  assert (Hcl : closed (_channel s) (set_pump t Finished (close s1)) = true).
  { apply (closed_close_eq s1), (inv_channel s HI). }
  exists (set_pump t Finished (close s1)).
  split; [done|]. split; [done|]. split; [done|]. split; [done|].
  split; [done|]. split; [exact (same_receivers_close s1)|].
  split.
  { unfold running; simpl. rewrite Ht. by rewrite list_lookup_insert_eq. }
  intros acts s'' Hrun'.
  destruct (run_closed acts _ s'' (_channel s) Hrun' Hcl) as [Hcl' Hh].
  split; [done|]. split; [|split; [done|]].
  - eapply run_done; [exact Hrun'| |done]. simpl.
    by rewrite list_lookup_insert_eq.
  - intros r rc Hrc. by apply next_of_closed.
Qed.

(** C2, as the code has it.  An [AioRpcError] raised by the stream does not
    end the task: the same step consults the strategy and either logs the
    retry with the error and goes to sleep, or logs the give-up with the
    error, closes the channel and returns.  No receiver is touched by that
    step. *)
Theorem transport_errors_stay_in_the_pump retry_strategy s t sender k i e :
  reachable retry_strategy s ->
  tasks s !! t = Some (Streaming sender k i) ->
  item k i = Raise e ->
  is_AioRpcError e = true ->
  exists s',
    run_task t s = Some s'
    /\ same_receivers s s'
    /\ _retry_strategy s' = snd (next_interval (_retry_strategy s))
    /\ ((exists d,
           fst (next_interval (_retry_strategy s)) = Some d
           /\ tasks s' = <[t := Sleeping sender d]> (tasks s)
           /\ log s' = log s ++ [(WARNING,
                Retrying (get_progress (_retry_strategy s')) d (Error e))]
           /\ channels s' = channels s)
        \/ (fst (next_interval (_retry_strategy s)) = None
            /\ tasks s' = <[t := Finished]> (tasks s)
            /\ log s' = log s ++ [(ERROR,
                 Giving_up (get_progress (_retry_strategy s')) (Error e))]
            /\ closed sender s' = true)).
Proof.
  intros Hreach Hp Hitem He. pose proof (reachable_Inv _ _ Hreach) as HI.
  pose proof (inv_bound s HI t _ Hp) as [-> Hk].
  unfold run_task. rewrite Hp, Hitem. unfold raised_in_try. rewrite He.
  eexists. split; [done|]. unfold stream_ended.
  destruct (next_interval (_retry_strategy s)) as [[d|] st]; simpl.
  - split; [done|]. split; [done|]. left. by exists d.
  - set (s1 := emit ERROR (Giving_up (get_progress st) (Error e))
                 (set_strategy st s)).
    split; [exact (same_receivers_close s1)|]. split; [done|]. right.
    split; [done|]. split; [done|]. split; [done|].
    apply (closed_close_eq s1), (inv_channel s HI).
Qed.

Lemma transformed_functional xs ys ys' :
  transformed xs ys -> transformed xs ys' -> ys = ys'.
Proof.
  intros H. revert ys'. induction H as [|x y xs ys Hxy _ IH]; intros ys' H'.
  - by inversion H'.
  - inversion H' as [|x' y' xs' ys'' Hxy' Hrest]; subst.
    f_equal; [congruence|by apply IH].
Qed.

(** C1. Take a connection attempt whose stream produces the [N] items [xs]
    and then ends, in the state in which the pump waits for the first item.
    However the pump gets from there to the end of the stream, and whatever
    else happens in between, every receiver the channel had at the start has
    by then been handed exactly [N] items: the transformed [xs], each once
    and in the order of [xs].  And the pump does get there when the channel
    is open, as it is when [start()] was never called under a suspended
    [stop()], [transform] succeeds on [xs] and the consumers, with receivers
    of positive capacity, keep taking what they are handed: they have then
    taken the [N] items. *)
Theorem fan_out_in_order retry_strategy s0 t c k xs :
  reachable retry_strategy s0 ->
  produces k xs ->
  tasks s0 !! t = Some (Streaming c k 0) ->
  (forall acts s1,
     run acts s0 = Some s1 ->
     tasks s1 !! t = Some (Streaming c k (length xs)) ->
     exists ys,
       length ys = length xs
       /\ (forall i x, xs !! i = Some x ->
             exists y, ys !! i = Some y /\ transform x = Return y)
       /\ forall r rc, receiver_at c r s0 = Some rc ->
            exists rc', receiver_at c r s1 = Some rc'
                        /\ observed rc' = observed rc ++ ys)
  /\ (forall acts0,
        run acts0 (init retry_strategy) = Some s0 ->
        start_awaits_stop acts0 (init retry_strategy) = true ->
        closed c s0 = false)
  /\ (closed c s0 = false ->
      forall ys,
        transformed xs ys ->
        (forall r rc, receiver_at c r s0 = Some rc -> (0 < limit rc)%Z) ->
        exists acts s1,
          run acts s0 = Some s1
          /\ tasks s1 !! t = Some (Streaming c k (length xs))
          /\ forall r rc, receiver_at c r s0 = Some rc ->
               exists rc', receiver_at c r s1 = Some rc'
                           /\ seen rc' = observed rc ++ ys
                           /\ queue rc' = []).
Proof.
  intros Hreach Hprod Hp0.
  pose proof (reachable_Inv _ _ Hreach) as HI.
  split; [|split].
  - intros acts s1 Hrun Hp1.
    destruct (fan_out acts s0 s1 t c k xs HI Hprod Hp0 Hrun Hp1) as (ys & Hys & Hh).
    exists ys. split; [symmetry; by eapply Forall2_length|]. split; [|exact Hh].
    intros i x Hx. by eapply Forall2_lookup_l in Hys.
  - intros acts0 Hrun0 Horder.
    pose proof (inv_bound s0 HI t _ Hp0) as [-> _].
    by apply (orderly_pump retry_strategy acts0 s0 t _ Hrun0 Horder Hp0).
  - intros Hopen ys Hys Hlimit.
    destruct (attempt_progress t c k xs ys Hys 0 s0 HI Hp0 Hopen)
      as (acts & s1 & Hrun & Hp1 & Hq & _);
      [apply Hprod|exact Hlimit|].
    exists acts, s1. split; [done|]. split; [done|].
    destruct (fan_out acts s0 s1 t c k xs HI Hprod Hp0 Hrun Hp1) as (ys' & Hys' & Hh).
    rewrite (transformed_functional xs ys ys' Hys Hys').
    intros r rc Hrc. destruct (Hh r rc Hrc) as (rc' & Hrc' & Hobs).
    exists rc'. split; [done|]. pose proof (Hq r rc' Hrc') as Hempty.
    split; [|done]. unfold observed in Hobs at 1.
    by rewrite Hempty, app_nil_r in Hobs.
Qed.

(** C4. A fresh pump whose strategy answers [0] and then [None], on a stream
    method whose streams fail at once with a transport error: the pump makes
    the first attempt, logs the retry and sleeps for [0] seconds without
    touching the channel, which is open when [start()] was never called under
    a suspended [stop()], makes the second attempt, logs the give-up, closes
    the channel and returns.  The
    stream method has been called twice, the strategy has been asked twice,
    no receiver has been handed anything, and the task cannot run again. *)
Theorem zero_interval_is_an_immediate_retry retry_strategy s t e1 e2 st1 st2 call1 call2 :
  reachable retry_strategy s ->
  tasks s !! t = Some Created ->
  next_interval (_retry_strategy s) = (Some 0%Q, st1) ->
  next_interval st1 = (None, st2) ->
  stream_method (calls s) = Return call1 -> call1 0 = Raise e1 ->
  stream_method (S (calls s)) = Return call2 -> call2 0 = Raise e2 ->
  is_AioRpcError e1 = true -> is_AioRpcError e2 = true ->
  exists s2 s4,
    run [Run t; Run t] s = Some s2
    /\ tasks s2 = <[t := Sleeping (_channel s) 0%Q]> (tasks s)
    /\ channels s2 = channels s
    /\ closed (_channel s) s2 = closed (_channel s) s
    /\ (forall acts0,
          run acts0 (init retry_strategy) = Some s ->
          start_awaits_stop acts0 (init retry_strategy) = true ->
          closed (_channel s) s2 = false)
    /\ run [Run t; Run t] s2 = Some s4
    /\ tasks s4 = <[t := Finished]> (tasks s)
    /\ closed (_channel s) s4 = true
    /\ calls s4 = 2 + calls s
    /\ _retry_strategy s4 = st2
    /\ same_receivers s s4
    /\ log s4 = log s ++ [(INFO, Starting_to_stream);
                          (WARNING, Retrying (get_progress st1) 0%Q (Error e1));
                          (INFO, Starting_to_stream);
                          (ERROR, Giving_up (get_progress st2) (Error e2))]
    /\ run_task t s4 = None.
Proof.
  intros Hreach Hp Hn1 Hn2 Hs1 Hc1 Hs2 Hc2 He1 He2.
  pose proof (reachable_Inv _ _ Hreach) as HI.
  pose proof (Inv_live s t _ HI Hp eq_refl) as Ht.
  assert (Hlt : t < length (tasks s)) by by eapply lookup_lt_Some.
  pose proof (inv_channel s HI) as Hch.
  (* first attempt *)
  set (sa := count_call (emit INFO Starting_to_stream s)).
  set (s1 := set_pump t (Streaming (_channel s) (calls s) 0) sa).
  assert (H1 : run_task t s = Some s1).
  { unfold run_task, attempt. rewrite Hp. simpl. by rewrite Hs1. }
  set (s2 := set_pump t (Sleeping (_channel s) 0%Q)
               (emit WARNING (Retrying (get_progress st1) 0%Q (Error e1))
                  (set_strategy st1 s1))).
  assert (H2 : run_task t s1 = Some s2).
  { unfold run_task, item. simpl. rewrite list_lookup_insert_eq by done.
    rewrite Hs1, Hc1. unfold raised_in_try, stream_ended. rewrite He1. simpl.
    by rewrite Hn1. }
  (* second attempt *)
  set (sb := count_call (emit INFO Starting_to_stream s2)).
  set (s3 := set_pump t (Streaming (_channel s) (S (calls s)) 0) sb).
  assert (H3 : run_task t s2 = Some s3).
  { unfold run_task, attempt. simpl. rewrite list_lookup_insert_eq
      by by rewrite length_insert.
    by rewrite Hs2. }
  set (sc := emit ERROR (Giving_up (get_progress st2) (Error e2))
               (set_strategy st2 s3)).
  set (s4 := set_pump t Finished (close sc)).
  assert (H4 : run_task t s3 = Some s4).
  { unfold run_task, item. simpl. rewrite list_lookup_insert_eq
      by by rewrite !length_insert.
    rewrite Hs2, Hc2. unfold raised_in_try, stream_ended. rewrite He2. simpl.
    by rewrite Hn2. }
  exists s2, s4. simpl. rewrite H1, H2, H3, H4.
  split; [done|]. split; [simpl; by rewrite list_insert_insert_eq|].
  split; [done|]. split; [done|].
  split.
  { intros acts0 Hrun0 Horder.
    change (closed (_channel s) s = false).
    by apply (orderly_pump retry_strategy acts0 s t _ Hrun0 Horder Hp). }
  split; [done|].
  split; [simpl; by rewrite !list_insert_insert_eq|].
  split; [apply (closed_close_eq sc); exact Hch|].
  split; [done|]. split; [done|].
  split; [exact (same_receivers_close sc)|].
  split; [simpl; by rewrite <- !app_assoc|].
  unfold run_task. simpl. rewrite list_lookup_insert_eq; [done|].
  by rewrite !length_insert.
Qed.

(** *** Further properties of the broadcaster *)

(** X8. No replay.  A receiver created while the pump waits for item [i] of a
    stream has, when the pump waits for item [j] of that stream, been handed
    the items [i], ..., [j-1] of the stream, transformed and in order: the
    items before [i] are not sent again, and nothing else is sent.  The
    receivers that were there already are handed the same items. *)
Theorem a_late_receiver_gets_the_rest retry_strategy maxsize s c r s0 t k i
    acts s1 j :
  reachable retry_strategy s ->
  new_receiver maxsize s = (Return (c, r), s0) ->
  tasks s0 !! t = Some (Streaming c k i) ->
  run acts s0 = Some s1 ->
  tasks s1 !! t = Some (Streaming c k j) ->
  exists ys rc,
    j = i + length ys
    /\ (forall n y, ys !! n = Some y ->
          exists x, item k (i + n) = Yield x /\ transform x = Return y)
    /\ receiver_at c r s1 = Some rc
    /\ observed rc = ys
    /\ forall r' rc0, receiver_at c r' s0 = Some rc0 ->
         exists rc', receiver_at c r' s1 = Some rc'
                     /\ observed rc' = observed rc0 ++ ys.
Proof.
  intros Hreach Hnew Hp0 Hrun Hp1.
  pose proof (reachable_Inv _ _ Hreach) as HI.
  destruct (new_receiver_empty maxsize s c r s0 HI Hnew)
    as (HI0 & _ & _ & _ & _ & _ & Hrecv).
  destruct (stretch_fan_out acts s0 s1 t c k i j HI0 Hp0 Hrun Hp1)
    as (ys & Hj & Hys & Hh).
  destruct (Hh r _ Hrecv) as (rc & Hrc & Hobs).
  exists ys, rc. split; [done|]. split; [exact Hys|]. split; [done|].
  split; [done|]. exact Hh.
Qed.

(** **** The order in which items arrive *)

(** A position in the streams: item [i] of stream [k] is [(k, i)]. *)
Definition earlier (p q : nat * nat) : Prop :=
  p.1 < q.1 \/ (p.1 = q.1 /\ p.2 < q.2).

Definition increasing (ps : list (nat * nat)) : Prop :=
  forall a b p q, ps !! a = Some p -> ps !! b = Some q -> a < b -> earlier p q.

(** [ys] are the items at the positions [ps], transformed. *)
Definition taken_from (ps : list (nat * nat)) (ys : list OutputT) : Prop :=
  Forall2 (fun p y => exists x, item p.1 p.2 = Yield x /\ transform x = Return y)
          ps ys.

(** The item a task waits for or is about to send. *)
Definition position_of (p : pump) : option (nat * nat) :=
  match p with
  | Streaming _ k i | Sending _ k i _ => Some (k, i)
  | _ => None
  end.

(** Position [p] is of a stream that was requested, and every task is
    past it. *)
Definition behind (s : state) (p : nat * nat) : Prop :=
  p.1 < calls s
  /\ forall t pu q, tasks s !! t = Some pu -> position_of pu = Some q -> earlier p q.

(** Every receiver has been handed items of increasing positions. *)
Definition in_order (s : state) : Prop :=
  forall c r rc, receiver_at c r s = Some rc ->
    exists ps, taken_from ps (observed rc) /\ increasing ps /\ Forall (behind s) ps.

(** From [s] to [s'] no task has gone back: it is where it was, or one
    item further, or on a stream requested since. *)
Definition advanced (s s' : state) : Prop :=
  calls s <= calls s'
  /\ forall t pu' q', tasks s' !! t = Some pu' -> position_of pu' = Some q' ->
       (exists pu, tasks s !! t = Some pu
          /\ (position_of pu = Some q'
              \/ exists k i, position_of pu = Some (k, i) /\ q' = (k, S i)))
       \/ calls s <= q'.1.

Lemma advanced_refl s : advanced s s.
Proof. split; [done|]. intros t pu' q' Hp Hq. left. exists pu'. by split; [|left]. Qed.

Lemma advanced_start s : advanced s (start s).
Proof.
  unfold start. destruct (running s); [apply advanced_refl|].
  split; [done|]. simpl. intros t pu' q' [Hp|[_ Hp]]%lookup_app_Some Hq.
  - left. exists pu'. by split; [|left].
  - apply list_lookup_singleton_Some in Hp as [_ <-]. done.
Qed.

Lemma advanced_insert_done s t p' :
  position_of p' = None -> advanced s (set_pump t p' s).
Proof.
  intros Hnone. split; [done|]. simpl.
  intros t' pu' q' [(-> & <- & _)|[Hne Hp]]%list_lookup_insert_Some Hq.
  - congruence.
  - left. exists pu'. by split; [|left].
Qed.

Lemma advanced_alter_channel f c s s' :
  advanced s s' -> advanced s (alter_channel f c s').
Proof. intros H. exact H. Qed.

Lemma exec_advanced a s s' : exec a s = Some s' -> advanced s s'.
Proof.
  intros Ha. destruct a as [|maxsize| | |t|c r]; cbn [exec] in Ha.
  - exec_result Ha. apply advanced_start.
  - exec_result Ha. rewrite new_receiver_unfold.
    assert (Hre : advanced s (restarted s)).
    { unfold restarted. destruct (closed (_channel s) s); [|apply advanced_refl].
      exact (advanced_start (emit WARNING Stream_stopped s)). }
    unfold subscribed. destruct (maxsize <? 0)%Z; [done|].
    by apply advanced_alter_channel.
  - exec_result Ha. rewrite stop_cancel_unfold.
    destruct (running s); [|apply advanced_refl].
    destruct (_task s) as [t|]; simpl; [|apply advanced_refl].
    exact (advanced_insert_done s t Cancelled eq_refl).
  - apply stop_close_unfold in Ha as (n & _ & ->).
    apply (advanced_alter_channel close_broadcast (_channel s) s
             (set_stopping n s)).
    exact (advanced_refl s).
  - destruct (run_task_cases t s s' Ha) as (p & Hp & Hd & Hcases).
    destruct Hcases as
      [(sender & k & i & x & y & -> & Hi & Hx & ->)
      |[(sender & k & i & y & -> & Hcl & ->)
       |(p' & Hm & Hcall)]].
    + split; [done|]. simpl.
      intros t' pu' q' [(-> & <- & _)|[Hne Hp']]%list_lookup_insert_Some Hq.
      * left. eexists. split; [exact Hp|by left].
      * left. exists pu'. by split; [|left].
    + split; [done|]. simpl.
      intros t' pu' q' [(-> & <- & _)|[Hne Hp']]%list_lookup_insert_Some Hq.
      * left. eexists. split; [exact Hp|]. right. exists k, i.
        split; [done|]. simpl in Hq. congruence.
      * left. exists pu'. by split; [|left].
    + pose proof (moves_tasks _ _ _ _ Hm) as Htasks.
      pose proof (moves_calls _ _ _ _ Hm) as Hcalls. split; [done|].
      rewrite Htasks.
      intros t' pu' q' [(-> & <- & _)|[Hne Hp']]%list_lookup_insert_Some Hq.
      * right. destruct Hcall as [Hcall|[Hcall _]];
          destruct p'; simplify_eq/=; done.
      * left. exists pu'. by split; [|left].
  - unfold receive in Ha.
    destruct (channels s !! c) as [b|]; [|done].
    destruct (receivers b !! r) as [rc|]; [|done].
    destruct (queue rc); [done|]. injection Ha as <-.
    apply advanced_alter_channel, advanced_refl.
Qed.

Lemma earlier_next p k i : earlier p (k, i) -> earlier p (k, S i).
Proof. unfold earlier; simpl. intros [?|[? ?]]; [by left|right; lia]. Qed.

Lemma behind_advanced s s' p : advanced s s' -> behind s p -> behind s' p.
Proof.
  intros [Hcalls Hadv] [Hlt Hb]. split; [lia|].
  intros t pu' q' Hp Hq.
  destruct (Hadv t pu' q' Hp Hq) as [(pu & Hpu & [Hsame|(k & i & Hpos & ->)])|Hnew].
  - by eapply Hb.
  - apply earlier_next. by eapply Hb.
  - left. lia.
Qed.

Lemma receiver_at_alter f c c' r s :
  receiver_at c' r (alter_channel f c s)
  = if decide (c = c') then channels s !! c' ≫= (fun b => receivers (f b) !! r)
    else receiver_at c' r s.
Proof.
  unfold receiver_at, alter_channel; simpl.
  rewrite list_lookup_alter. destruct (decide (c = c')) as [->|Hc]; [|done].
  by destruct (channels s !! c').
Qed.

Lemma receiver_at_start c r s rc :
  receiver_at c r (start s) = Some rc -> receiver_at c r s = Some rc.
Proof.
  unfold start. destruct (running s); [done|].
  unfold receiver_at; simpl.
  destruct ((channels s ++ [Broadcast]) !! c) as [b|] eqn:Hb; [|done].
  apply lookup_app_Some in Hb as [Hb|[_ Hb]].
  - by rewrite Hb.
  - apply list_lookup_singleton_Some in Hb as [_ <-]. done.
Qed.

Lemma receiver_at_restarted c r s rc :
  receiver_at c r (restarted s) = Some rc -> receiver_at c r s = Some rc.
Proof.
  unfold restarted. destruct (closed (_channel s) s); [|done].
  apply (receiver_at_start c r (emit WARNING Stream_stopped s)).
Qed.

Lemma observed_enqueue y rc : observed (enqueue y rc) = observed rc ++ [y].
Proof. unfold observed, enqueue; simpl. by rewrite app_assoc. Qed.

(** Where a receiver comes from: it is new and empty, or it was there and
    has been handed nothing, or it has been handed the one item that a task
    was about to send. *)
Lemma exec_receiver a s s' c r rc' :
  exec a s = Some s' -> receiver_at c r s' = Some rc' ->
  observed rc' = []
  \/ exists rc, receiver_at c r s = Some rc
       /\ (observed rc' = observed rc
           \/ exists t k i y,
                observed rc' = observed rc ++ [y]
                /\ tasks s !! t = Some (Sending c k i y)
                /\ tasks s' = <[t := Streaming c k (S i)]> (tasks s)).
Proof.
  intros Ha Hrc'. destruct a as [|maxsize| | |t|c' r0]; cbn [exec] in Ha.
  - exec_result Ha. right. exists rc'. split; [by apply receiver_at_start|by left].
  - exec_result Ha. rewrite new_receiver_unfold in Hrc'. unfold subscribed in Hrc'.
    destruct (maxsize <? 0)%Z.
    { right. exists rc'. split; [by apply receiver_at_restarted|by left]. }
    rewrite receiver_at_alter in Hrc'.
    case_decide as Hc.
    + destruct (channels (restarted s) !! c) as [b|] eqn:Hb; [|done].
      simpl in Hrc'. apply lookup_app_Some in Hrc' as [Hr|[_ Hr]].
      * right. exists rc'. split; [|by left].
        apply receiver_at_restarted. unfold receiver_at. by rewrite Hb.
      * apply list_lookup_singleton_Some in Hr as [_ <-]. by left.
    + right. exists rc'. split; [by apply receiver_at_restarted|by left].
  - exec_result Ha. right. exists rc'. split; [|by left].
    by rewrite <- (same_receivers_stop_cancel s).
  - right. exists rc'. split; [|by left].
    by rewrite <- (same_receivers_stop_close s s' Ha).
  - destruct (run_task_cases t s s' Ha) as (p & Hp & Hd & Hcases).
    destruct Hcases as
      [(sender & k & i & x & y & -> & Hi & Hx & ->)
      |[(sender & k & i & y & -> & Hcl & ->)
       |(p' & Hm & Hcall)]].
    + right. exists rc'. by split; [|left].
    + change (receiver_at c r (alter_channel (deliver y) sender s) = Some rc')
        in Hrc'.
      rewrite receiver_at_alter in Hrc'. case_decide as Hc.
      * subst sender. right.
        destruct (channels s !! c) as [b|] eqn:Hb; [|done].
        simpl in Hrc'. rewrite list_lookup_fmap in Hrc'.
        destruct (receivers b !! r) as [rc|] eqn:Hr; [|done].
        injection Hrc' as <-. exists rc. split.
        { unfold receiver_at. rewrite Hb. done. }
        right. exists t, k, i, y. by rewrite observed_enqueue.
      * right. exists rc'. by split; [|left].
    + right. exists rc'. split; [|by left].
      by rewrite <- (moves_receivers _ _ _ _ Hm).
  - unfold receive in Ha.
    destruct (channels s !! c') as [b|]; [|done].
    destruct (receivers b !! r0) as [rc0|]; [|done].
    destruct (queue rc0); [done|]. injection Ha as <-.
    rewrite receiver_at_consume in Hrc'. right. case_decide.
    + destruct (receiver_at c r s) as [rc|]; [|done].
      injection Hrc' as <-. exists rc. split; [done|]. left.
      apply observed_dequeue.
    + exists rc'. by split; [|left].
Qed.

Lemma in_order_exec a s s' : Inv s -> in_order s -> exec a s = Some s' -> in_order s'.
Proof.
  intros HI Hord Ha c r rc' Hrc'.
  pose proof (exec_advanced a s s' Ha) as Hadv.
  destruct (exec_receiver a s s' c r rc' Ha Hrc')
    as [Hnil|(rc & Hrc & [Hsame|(t & k & i & y & Hobs & Hp & Htasks)])].
  - exists []. rewrite Hnil. split; [constructor|]. split; [|constructor].
    by intros a0 b p q.
  - destruct (Hord c r rc Hrc) as (ps & Hps & Hinc & Hb).
    exists ps. rewrite Hsame. split; [done|]. split; [done|].
    eapply Forall_impl; [exact Hb|]. intros p. by apply behind_advanced.
  - destruct (Hord c r rc Hrc) as (ps & Hps & Hinc & Hb).
    pose proof (inv_bound s HI t _ Hp) as (_ & Hk & x & Hi & Hx).
    exists (ps ++ [(k, i)]). rewrite Hobs. split; [|split].
    + apply Forall2_app; [done|]. constructor; [|constructor]. by exists x.
    + intros a0 b p q Ha0 Hb0 Hlt.
      apply lookup_app_Some in Hb0 as [Hb0|[Hge Hb0]].
      * apply lookup_app_Some in Ha0 as [Ha0|[Hge' _]].
        -- by eapply Hinc.
        -- apply lookup_lt_Some in Hb0. lia.
      * apply list_lookup_singleton_Some in Hb0 as [Hb0 <-].
        apply lookup_app_Some in Ha0 as [Ha0|[Hge' _]]; [|lia].
        rewrite Forall_lookup in Hb. destruct (Hb a0 p Ha0) as [_ Hpos].
        by eapply Hpos.
    + apply Forall_app. split.
      * eapply Forall_impl; [exact Hb|]. intros p. by apply behind_advanced.
      * constructor; [|constructor]. destruct Hadv as [Hcalls _].
        split; [simpl; lia|]. rewrite Htasks.
        intros t' pu' q' [(-> & <- & _)|[Hne Hp']]%list_lookup_insert_Some Hq.
        -- simpl in Hq. injection Hq as <-. right. simpl. lia.
        -- destruct (done pu') eqn:Hd; [by destruct pu'|].
           pose proof (inv_one s HI t' pu' Hp' Hd) as Ht'.
           pose proof (inv_one s HI t _ Hp eq_refl) as Ht. congruence.
Qed.

Lemma in_order_run acts s s' : Inv s -> in_order s -> run acts s = Some s' -> in_order s'.
Proof.
  revert s. induction acts as [|a acts IH]; intros s HI Hord; simpl.
  - by intros [= <-].
  - destruct (exec a s) as [s1|] eqn:Ha; [|done].
    apply IH; [by eapply Inv_exec|by eapply in_order_exec].
Qed.

(** X9. No duplicates, no reordering, nothing made up.  Whatever has happened
    since the construction (retries, restarts, cancellations), what a
    receiver has been handed are items of the streams, transformed, at
    strictly increasing positions: a later item comes from a later stream,
    or from further on in the same stream. *)
Theorem items_arrive_in_stream_order retry_strategy s c r rc :
  reachable retry_strategy s ->
  receiver_at c r s = Some rc ->
  exists ps : list (nat * nat),
    length ps = length (observed rc)
    /\ (forall n p y, ps !! n = Some p -> observed rc !! n = Some y ->
          p.1 < calls s
          /\ exists x, item p.1 p.2 = Yield x /\ transform x = Return y)
    /\ (forall a b p q, ps !! a = Some p -> ps !! b = Some q -> a < b ->
          p.1 < q.1 \/ (p.1 = q.1 /\ p.2 < q.2)).
Proof.
  intros [acts Hrun] Hrc.
  assert (Hord : in_order s).
  { eapply in_order_run; [apply Inv_init| |exact Hrun].
    intros c0 r0 rc0 Hrc0. unfold init in Hrc0.
    apply receiver_at_start in Hrc0. done. }
  destruct (Hord c r rc Hrc) as (ps & Hps & Hinc & Hb).
  exists ps. split; [by eapply Forall2_length|]. split; [|exact Hinc].
  intros n p y Hp Hy. split.
  - rewrite Forall_lookup in Hb. by destruct (Hb n p Hp).
  - unfold taken_from in Hps. rewrite Forall2_lookup in Hps.
    specialize (Hps n). rewrite Hp, Hy in Hps. by inversion Hps.
Qed.

(** **** After the pump has ended *)

Lemma idle_since_after acts s s1 s' :
  idle_since s s1 -> run acts s1 = Some s' -> idle_since s s'.
Proof.
  revert s1. induction acts as [|a acts IH]; intros s1 Hidle; simpl.
  - by intros [= <-].
  - destruct (exec a s1) as [s2|] eqn:Ha; [|done].
    apply IH. by eapply idle_since_step.
Qed.

(** X10. A restart does not bring receivers back.  Once no pump runs (it gave
    up, was stopped or ended with an exception), the receivers that exist
    are handed nothing more, whatever is called afterwards: [start()] makes
    a new channel, and a pump that runs later sends to a channel made since,
    never to theirs. *)
Theorem a_restart_leaves_the_old_receivers_behind retry_strategy s acts s' :
  reachable retry_strategy s ->
  running s = false ->
  run acts s = Some s' ->
  (forall c r rc, receiver_at c r s = Some rc ->
     exists rc', receiver_at c r s' = Some rc' /\ observed rc' = observed rc)
  /\ (forall c r rc, receiver_at c r s = Some rc -> closed c s = true ->
        closed c s' = true)
  /\ (forall t p, tasks s' !! t = Some p -> done p = false ->
        length (channels s) <= _channel s'
        /\ bound (_channel s') (calls s') p
        /\ forall r, receiver_at (_channel s') r s = None).
Proof.
  intros Hreach Hr Hrun. pose proof (reachable_Inv _ _ Hreach) as HI.
  assert (Hidle : idle_since s s) by (split; [done|split; [done|congruence]]).
  pose proof (idle_since_after acts s s s' Hidle Hrun) as (HI' & Hlen & Hch).
  split; [|split].
  - intros c r rc Hrc.
    assert (Hc : c < length (channels s)).
    { unfold receiver_at in Hrc. destruct (channels s !! c) eqn:Hb; [|done].
      by eapply lookup_lt_Some. }
    destruct (idle_receivers acts s s' c HI Hr Hrun Hc r rc Hrc) as (rc' & Hrc' & Hobs).
    exists rc'. by rewrite app_nil_r in Hobs.
  - intros c r rc _ Hcl. by destruct (run_closed acts s s' c Hrun Hcl).
  - intros t p Hp Hd.
    pose proof (Inv_live s' t p HI' Hp Hd) as Ht.
    assert (Hr' : running s' = true)
      by by rewrite (running_false_done s' t p Ht Hp), Hd.
    specialize (Hch Hr'). split; [done|]. split; [by eapply inv_bound|].
    intros r. unfold receiver_at. by rewrite lookup_ge_None_2.
Qed.

(** X11. A pump that ended with an exception is not replaced by [new_receiver].
    When no pump runs, the channel is open and no [stop()] call is suspended
    at its [await], [new_receiver] starts nothing and logs nothing, and the
    receiver it returns is never handed an item and never reaches the end of
    its iteration, whatever is called afterwards ([start()] included, which
    moves on to a new channel). *)
Theorem a_receiver_of_an_ended_pump_waits_for_ever retry_strategy s maxsize c r s' :
  reachable retry_strategy s ->
  running s = false ->
  closed (_channel s) s = false ->
  stopping s = 0 ->
  new_receiver maxsize s = (Return (c, r), s') ->
  c = _channel s
  /\ tasks s' = tasks s
  /\ log s' = log s
  /\ _retry_strategy s' = _retry_strategy s
  /\ running s' = false
  /\ forall acts s'',
       run acts s' = Some s'' ->
       closed c s'' = false
       /\ next_of c r s'' = Some Waiting.
Proof.
  intros Hreach Hr Hopen Hstopping Hnew. pose proof (reachable_Inv _ _ Hreach) as HI.
  destruct (new_receiver_empty maxsize s c r s' HI Hnew)
    as (HI' & _ & Hs' & Hc & Hlt & _ & Hrecv).
  assert (Hre : restarted s = s) by (unfold restarted; by rewrite Hopen).
  rewrite Hre in Hs', Hc.
  split; [done|]. split; [by subst s'|]. split; [by subst s'|].
  split; [by subst s'|].
  assert (Hr' : running s' = false) by by subst s'.
  split; [done|]. intros acts s'' Hrun.
  assert (Hleft : left_open c s').
  { split; [done|]. split; [|split; [done|]].
    - subst s' c. by rewrite closed_alter_channel.
    - intros _. split; [done|]. by subst s'. }
  pose proof (left_open_run acts c s' s'' Hleft Hrun) as Hopen''.
  split; [done|].
  destruct (idle_receivers acts s' s'' c HI' Hr' Hrun Hlt r _ Hrecv)
    as (rc' & Hrc' & Hobs).
  unfold receiver_at in Hrc'. unfold next_of, closed in *.
  destruct (channels s'' !! c) as [b|]; [|done]. simpl in *.
  rewrite Hrc'. simpl. unfold next_item. rewrite Hopen''.
  unfold observed in Hobs. simpl in Hobs.
  apply app_eq_nil in Hobs as [_ ->]. done.
Qed.

(** **** What the [try] block covers *)

(** X12. [self._stream_method()] is called inside the [try] block.  When the call
    itself raises, no stream is iterated, but the attempt has been logged
    and counted; a transport error is then handled as if the stream had
    failed (the strategy is asked once, the task sleeps or gives up and
    closes the channel), and any other exception ends the task, which logs
    nothing more and leaves the channel as it is. *)
Theorem a_stream_call_that_raises_is_a_failed_attempt retry_strategy s t p e :
  reachable retry_strategy s ->
  tasks s !! t = Some p ->
  (p = Created \/ exists sender d, p = Sleeping sender d) ->
  stream_method (calls s) = Raises e ->
  exists s',
    run_task t s = Some s'
    /\ calls s' = S (calls s)
    /\ same_receivers s s'
    /\ (is_AioRpcError e = true ->
        _retry_strategy s' = snd (next_interval (_retry_strategy s))
        /\ ((exists d,
               fst (next_interval (_retry_strategy s)) = Some d
               /\ tasks s' = <[t := Sleeping (_channel s) d]> (tasks s)
               /\ log s' = log s ++ [(INFO, Starting_to_stream);
                    (WARNING, Retrying (get_progress (_retry_strategy s')) d (Error e))]
               /\ channels s' = channels s)
            \/ (fst (next_interval (_retry_strategy s)) = None
                /\ tasks s' = <[t := Finished]> (tasks s)
                /\ log s' = log s ++ [(INFO, Starting_to_stream);
                     (ERROR, Giving_up (get_progress (_retry_strategy s')) (Error e))]
                /\ closed (_channel s) s' = true)))
    /\ (is_AioRpcError e = false ->
        tasks s' = <[t := match e with CancelledError => Cancelled | _ => Failed e end]>
                     (tasks s)
        /\ _retry_strategy s' = _retry_strategy s
        /\ channels s' = channels s
        /\ log s' = log s ++ [(INFO, Starting_to_stream)]).
Proof.
  intros Hreach Hp Hcases Hcall. pose proof (reachable_Inv _ _ Hreach) as HI.
  assert (Hrun : run_task t s = Some (attempt t (_channel s) s)).
  { unfold run_task. rewrite Hp.
    destruct Hcases as [->|(sender & d & ->)]; [done|].
    pose proof (inv_bound s HI t _ Hp) as Hb. simpl in Hb. by subst sender. }
  exists (attempt t (_channel s) s). split; [done|].
  unfold attempt. simpl. rewrite Hcall. unfold raised_in_try.
  destruct (is_AioRpcError e) eqn:He.
  - unfold stream_ended. simpl.
    destruct (next_interval (_retry_strategy s)) as [[d|] st]; simpl.
    + split; [done|]. split; [done|]. split; [|done]. intros _.
      split; [done|]. left. exists d. rewrite <- app_assoc. done.
    + set (s1 := emit ERROR (Giving_up (get_progress st) (Error e))
                   (set_strategy st (count_call (emit INFO Starting_to_stream s)))).
      split; [done|]. split; [exact (same_receivers_close s1)|].
      split; [|done]. intros _. split; [done|]. right.
      split; [done|]. split; [done|]. split; [by rewrite <- app_assoc|].
      apply (closed_close_eq s1), (inv_channel s HI).
  - split; [done|]. split; [done|]. split; [done|]. intros _. done.
Qed.

(** X13. [transform] is called inside the [try] block too.  A transport error
    raised by [transform] is taken for a failure of the stream: the item is
    not sent, the strategy is asked once, and the task sleeps before another
    attempt or gives up and closes the channel.  Either way the task never
    comes back to this stream: what the stream had left is not read. *)
Theorem a_transport_error_from_transform_ends_the_stream retry_strategy s t sender
    k i x e :
  reachable retry_strategy s ->
  tasks s !! t = Some (Streaming sender k i) ->
  item k i = Yield x ->
  transform x = Raises e ->
  is_AioRpcError e = true ->
  exists s',
    run_task t s = Some s'
    /\ same_receivers s s'
    /\ calls s' = calls s
    /\ _retry_strategy s' = snd (next_interval (_retry_strategy s))
    /\ ((exists d,
           fst (next_interval (_retry_strategy s)) = Some d
           /\ tasks s' = <[t := Sleeping sender d]> (tasks s)
           /\ log s' = log s ++ [(WARNING,
                Retrying (get_progress (_retry_strategy s')) d (Error e))]
           /\ channels s' = channels s)
        \/ (fst (next_interval (_retry_strategy s)) = None
            /\ tasks s' = <[t := Finished]> (tasks s)
            /\ log s' = log s ++ [(ERROR,
                 Giving_up (get_progress (_retry_strategy s')) (Error e))]
            /\ closed sender s' = true))
    /\ forall acts s'' p,
         run acts s' = Some s'' ->
         tasks s'' !! t = Some p ->
         call_of p <> Some k.
Proof.
  intros Hreach Hp Hitem Hx He. pose proof (reachable_Inv _ _ Hreach) as HI.
  pose proof (inv_bound s HI t _ Hp) as [-> Hk].
  assert (Hlt : t < length (tasks s)) by by eapply lookup_lt_Some.
  assert (Hrun : run_task t s = Some (stream_ended t (_channel s) (Some e) s)).
  { unfold run_task. rewrite Hp, Hitem, Hx. unfold raised_in_try. by rewrite He. }
  exists (stream_ended t (_channel s) (Some e) s). split; [done|].
  assert (Hleft : left_attempt t k (stream_ended t (_channel s) (Some e) s)).
  { destruct (moves_stream_ended t (_channel s) (Some e) s)
      as (p' & Hm & Hcall & Hcalls).
    exists p'. rewrite (moves_tasks _ _ _ _ Hm), Hcalls.
    split; [by apply list_lookup_insert_eq|]. split; [congruence|done]. }
  assert (Hlater : forall acts s'' p,
             run acts (stream_ended t (_channel s) (Some e) s) = Some s'' ->
             tasks s'' !! t = Some p -> call_of p <> Some k).
  { intros acts s'' p Hrun' Hp'.
    destruct (left_attempt_run acts _ s'' t k Hleft Hrun') as (p' & Hp'' & Hne & _).
    congruence. }
  revert Hlater. unfold stream_ended.
  destruct (next_interval (_retry_strategy s)) as [[d|] st]; simpl; intros Hlater.
  - split; [done|]. split; [done|]. split; [done|]. split; [|done].
    left. by exists d.
  - set (s1 := emit ERROR (Giving_up (get_progress st) (Error e))
                 (set_strategy st s)).
    split; [exact (same_receivers_close s1)|]. split; [done|]. split; [done|].
    split; [|done]. right.
    split; [done|]. split; [done|]. split; [done|].
    apply (closed_close_eq s1), (inv_channel s HI).
Qed.

(** **** The log *)

(** The record that opens an attempt, and the records that end one. *)
Definition is_start (m : level * message) : bool :=
  match m with
  | (INFO, Starting_to_stream) => true
  | _ => false
  end.

Definition is_end (m : level * message) : bool :=
  match m with
  | (WARNING, Retrying _ _ _) | (ERROR, Giving_up _ _) => true
  | _ => false
  end.

Definition count (f : level * message -> bool) (l : list (level * message)) : nat :=
  length (List.filter f l).

Lemma count_snoc f l m : count f (l ++ [m]) = count f l + (if f m then 1 else 0).
Proof.
  unfold count. rewrite List.filter_app, length_app. simpl. by destruct (f m).
Qed.

(** Every call of the stream method has its record, an attempt ends at most
    once, and the attempt that a task is iterating has not ended. *)
Definition accounted (s : state) : Prop :=
  count is_start (log s) = calls s
  /\ count is_end (log s) <= calls s
  /\ forall t p, tasks s !! t = Some p -> call_of p <> None ->
       count is_end (log s) < calls s.

(** A task that is not done is the only one that can be iterating. *)
Lemma only_live s t p t' p' :
  Inv s -> tasks s !! t = Some p -> done p = false ->
  tasks s !! t' = Some p' -> call_of p' <> None -> t' = t.
Proof.
  intros HI Hp Hd Hp' Hcall.
  assert (Hd' : done p' = false) by by destruct p'.
  pose proof (inv_one s HI t p Hp Hd). pose proof (inv_one s HI t' p' Hp' Hd').
  congruence.
Qed.

Lemma accounted_attempt s t p :
  Inv s -> accounted s -> tasks s !! t = Some p -> done p = false ->
  call_of p = None ->
  accounted (attempt t (_channel s) s).
Proof.
  intros HI (Hstart & Hend & Hiter) Hp Hd Hcall.
  assert (Hothers : forall p' t' q,
             call_of p' = None ->
             <[t := p']> (tasks s) !! t' = Some q -> call_of q = None).
  { intros p' t' q Hnone [(-> & <- & _)|[Hne Hq]]%list_lookup_insert_Some; [done|].
    destruct (call_of q) eqn:Hq'; [|done].
    destruct Hne. symmetry. eapply (only_live s t p t' q); try done. congruence. }
  unfold attempt. simpl. destruct (stream_method (calls s)) as [call|e].
  - split; [|split]; simpl; rewrite ?count_snoc; simpl; lia.
  - unfold raised_in_try. destruct (is_AioRpcError e).
    + unfold stream_ended. simpl.
      destruct (next_interval (_retry_strategy s)) as [[d|] st]; simpl.
      * split; [|split]; simpl; rewrite ?count_snoc; simpl; [lia|lia|].
        intros t' q Hq Hne. by apply Hothers in Hq.
      * split; [|split]; simpl; rewrite ?count_snoc; simpl; [lia|lia|].
        intros t' q Hq Hne. by apply Hothers in Hq.
    + split; [|split]; simpl; rewrite ?count_snoc; simpl; lia.
Qed.

Lemma accounted_raised_in_try s t sender k p e :
  Inv s -> accounted s -> tasks s !! t = Some p -> call_of p = Some k ->
  accounted (raised_in_try t sender e s).
Proof.
  intros HI (Hstart & Hend & Hiter) Hp Hcall.
  assert (Hd : done p = false) by by destruct p.
  assert (Hlt : count is_end (log s) < calls s)
    by (eapply Hiter; [exact Hp|congruence]).
  assert (Hothers : forall p' t' q,
             call_of p' = None ->
             <[t := p']> (tasks s) !! t' = Some q -> call_of q = None).
  { intros p' t' q Hnone [(-> & <- & _)|[Hne Hq]]%list_lookup_insert_Some; [done|].
    destruct (call_of q) eqn:Hq'; [|done].
    destruct Hne. symmetry. eapply (only_live s t p t' q); try done. congruence. }
  unfold raised_in_try. destruct (is_AioRpcError e).
  - unfold stream_ended.
    destruct (next_interval (_retry_strategy s)) as [[d|] st]; simpl.
    + split; [|split]; simpl; rewrite ?count_snoc; simpl; [lia|lia|].
      intros t' q Hq Hne. by apply Hothers in Hq.
    + split; [|split]; simpl; rewrite ?count_snoc; simpl; [lia|lia|].
      intros t' q Hq Hne. by apply Hothers in Hq.
  - split; [done|]. split; [done|]. simpl. intros t' q Hq Hne.
    apply Hothers in Hq; [done|]. by destruct e.
Qed.

Lemma accounted_stream_ended s t sender k p error :
  Inv s -> accounted s -> tasks s !! t = Some p -> call_of p = Some k ->
  accounted (stream_ended t sender error s).
Proof.
  intros HI Hacc Hp Hcall.
  pose proof (accounted_raised_in_try s t sender k p (AioRpcError "" "")
                HI Hacc Hp Hcall) as H.
  unfold raised_in_try in H. simpl in H.
  unfold accounted, stream_ended in *.
  destruct (next_interval (_retry_strategy s)) as [[d|] st]; simpl in *;
    rewrite ?count_snoc in *; simpl in *; exact H.
Qed.

Lemma accounted_exec a s s' : Inv s -> accounted s -> exec a s = Some s' -> accounted s'.
Proof.
  intros HI Hacc Ha. destruct a as [|maxsize| | |t|c r]; cbn [exec] in Ha.
  - exec_result Ha. unfold start. destruct (running s); [done|].
    destruct Hacc as (Hstart & Hend & Hiter). split; [done|]. split; [done|].
    simpl. intros t p [Hp|[_ Hp]]%lookup_app_Some Hcall; [by eapply Hiter|].
    apply list_lookup_singleton_Some in Hp as [_ <-]. done.
  - exec_result Ha. rewrite new_receiver_unfold.
    destruct (subscribed_frame maxsize (restarted s))
      as [_ _ _ Htasks Hcalls Hlog _ _ _ _].
    unfold accounted. rewrite Htasks, Hcalls, Hlog.
    change (accounted (restarted s)).
    destruct Hacc as (Hstart & Hend & Hiter).
    unfold restarted. destruct (closed (_channel s) s); [|done].
    unfold start.
    change (running (emit WARNING Stream_stopped s)) with (running s).
    destruct (running s).
    + split; [|split]; simpl; rewrite ?count_snoc; simpl; rewrite ?Nat.add_0_r;
        [done|done|].
      intros t p Hp Hcall. by eapply Hiter.
    + split; [|split]; simpl; rewrite ?count_snoc; simpl; rewrite ?Nat.add_0_r;
        [done|done|].
      intros t p [Hp|[_ Hp]]%lookup_app_Some Hcall; [by eapply Hiter|].
      apply list_lookup_singleton_Some in Hp as [_ <-]. done.
  - exec_result Ha. rewrite stop_cancel_unfold.
    destruct (running s); [|done].
    destruct (_task s) as [t|]; simpl; [|done].
    destruct Hacc as (Hstart & Hend & Hiter). split; [done|]. split; [done|].
    simpl. intros t' p [(-> & <- & _)|[Hne Hp]]%list_lookup_insert_Some Hcall;
      [done|by eapply Hiter].
  - by apply stop_close_unfold in Ha as (n & _ & ->).
  - unfold run_task in Ha.
    destruct (tasks s !! t) as [p|] eqn:Hp; [|done].
    destruct p as [|sender k i|sender k i y|sender d| | |e]; try done.
    + exec_result Ha. by eapply accounted_attempt.
    + destruct (item k i) as [x| |e].
      * destruct (transform x) as [y|e]; exec_result Ha.
        -- destruct Hacc as (Hstart & Hend & Hiter).
           split; [done|]. split; [done|]. simpl. intros t' p' _ _.
           by eapply Hiter.
        -- by eapply accounted_raised_in_try.
      * exec_result Ha. by eapply accounted_stream_ended.
      * exec_result Ha. by eapply accounted_raised_in_try.
    + destruct (channels s !! sender) as [b|]; [|done].
      destruct (is_closed b).
      * exec_result Ha. by eapply accounted_raised_in_try.
      * destruct (forallb has_room (receivers b)); [|done]. exec_result Ha.
        destruct Hacc as (Hstart & Hend & Hiter).
        split; [done|]. split; [done|]. simpl. intros t' p' _ _.
        by eapply Hiter.
    + exec_result Ha. pose proof (inv_bound s HI t _ Hp) as Hb. simpl in Hb.
      subst sender. by eapply accounted_attempt.
  - unfold receive in Ha.
    destruct (channels s !! c) as [b|]; [|done].
    destruct (receivers b !! r) as [rc|]; [|done].
    destruct (queue rc); [done|]. by injection Ha as <-.
Qed.

Lemma accounted_run acts s s' : Inv s -> accounted s -> run acts s = Some s' -> accounted s'.
Proof.
  revert s. induction acts as [|a acts IH]; intros s HI Hacc; simpl.
  - by intros [= <-].
  - destruct (exec a s) as [s1|] eqn:Ha; [|done].
    apply IH; [by eapply Inv_exec|by eapply accounted_exec].
Qed.

(** X14. The log accounts for every connection attempt.  At any moment there are
    as many "Starting to stream" records as calls of the stream method, and
    at most as many "retrying" and "giving up" records: the strategy is
    asked for an interval at most once per attempt, and not before the
    attempt is over (while a task iterates a stream, that attempt has no
    such record yet). *)
Theorem the_log_accounts_for_every_attempt retry_strategy s :
  reachable retry_strategy s ->
  count is_start (log s) = calls s
  /\ count is_end (log s) <= calls s
  /\ forall t p k, tasks s !! t = Some p -> call_of p = Some k ->
       count is_end (log s) < calls s.
Proof.
  intros [acts Hrun].
  assert (Hacc : accounted s).
  { eapply accounted_run; [apply Inv_init| |exact Hrun].
    unfold init, start. simpl. split; [done|]. split; [done|].
    simpl. by intros [|[|t]] p [= <-]. }
  destruct Hacc as (Hstart & Hend & Hiter). split; [done|]. split; [done|].
  intros t p k Hp Hcall. eapply Hiter; [exact Hp|congruence].
Qed.

(** **** From the construction to the end of a stream *)

(** While a task iterates a stream it logs nothing, requests no stream and
    leaves the strategy alone. *)
Lemma stretch_transformed k xs ys ys' :
  (forall j x, xs !! j = Some x -> item k j = Yield x) ->
  transformed xs ys -> stretch k 0 ys' -> length ys' = length xs -> ys' = ys.
Proof.
  intros Hitems Hys Hys' Hlen.
  pose proof (Forall2_length _ _ _ Hys) as Hlen'.
  apply (list_eq_same_length _ _ (length xs)); [lia|done|].
  intros n y' y _ Hy' Hy.
  destruct (Hys' n y' Hy') as (x' & Hx' & Hty'). simpl in Hx'.
  destruct (Forall2_lookup_r _ _ _ _ _ Hys Hy) as (x & Hx & Hty).
  rewrite (Hitems n x Hx) in Hx'. congruence.
Qed.

(** X15. From the construction to the end of the stream.  A broadcaster is
    constructed with a strategy that does not retry and is given one
    receiver of positive capacity; the first stream yields the items [xs],
    on which [transform] succeeds, and then ends or fails with a transport
    error.  Then the pump can run to its end, with a consumer that keeps
    taking: the consumer has taken exactly the transformed items, in order,
    and its next [__anext__] ends the iteration; the stream method has been
    called once, the strategy asked once, and the log holds the record of
    the attempt and the record of the give-up, with the reason. *)
Theorem a_stream_without_retry_is_delivered_and_ended retry_strategy maxsize
    call xs ys error :
  (0 < maxsize)%Z ->
  fst (next_interval (_retry_strategy (init retry_strategy))) = None ->
  stream_method 0 = Return call ->
  (forall j x, xs !! j = Some x -> call j = Yield x) ->
  (call (length xs) = StopAsyncIteration /\ error = None
   \/ exists e, call (length xs) = Raise e /\ is_AioRpcError e = true
                /\ error = Some e) ->
  transformed xs ys ->
  exists acts s rc,
    run (New_receiver maxsize :: Run 0 :: acts) (init retry_strategy) = Some s
    /\ fst (new_receiver maxsize (init retry_strategy)) = Return (0, 0)
    /\ receiver_at 0 0 s = Some rc
    /\ seen rc = ys
    /\ queue rc = []
    /\ next_of 0 0 s = Some End_of_stream
    /\ tasks s !! 0 = Some Finished
    /\ running s = false
    /\ calls s = 1
    /\ _retry_strategy s
       = snd (next_interval (_retry_strategy (init retry_strategy)))
    /\ log s = [(INFO, Starting_to_stream);
                (ERROR, Giving_up (get_progress (_retry_strategy s))
                          (error_str error))].
Proof.
  intros Hmax Hnone Hcall Hxs Hend Hys.
  set (s0 := init retry_strategy) in *.
  set (s2 := set_pump 0 (Streaming 0 0 0)
               (count_call (emit INFO Starting_to_stream
                  (alter_channel (add_receiver maxsize) 0 s0)))).
  assert (Hneg : (maxsize <? 0)%Z = false) by by apply Z.ltb_ge; lia.
  assert (Hrun2 : run [New_receiver maxsize; Run 0] s0 = Some s2).
  { cbn [run exec]. rewrite new_receiver_unfold. unfold subscribed.
    rewrite Hneg. unfold s2, s0, init, start. simpl.
    unfold run_task, attempt. simpl. by rewrite Hcall. }
  assert (HI2 : Inv s2) by (eapply Inv_run; [apply Inv_init|exact Hrun2]).
  assert (Hitems : forall j x, xs !! j = Some x -> item 0 j = Yield x).
  { intros j x Hx. unfold item. rewrite Hcall. by apply Hxs. }
  assert (Hrecv2 : receiver_at 0 0 s2
                   = Some {| limit := maxsize; queue := []; seen := [] |}) by done.
  destruct (attempt_progress 0 0 0 xs ys Hys 0 s2 HI2 eq_refl)
    as (acts & s3 & Hrun3 & Hp3 & Hempty & Hlog3 & Hcalls3 & Hstrategy3).
  { done. }
  { intros j x Hx. by apply Hitems. }
  { intros [|r] rc; [|done]. rewrite Hrecv2. by intros [= <-]. }
  simpl in Hp3.
  assert (HI3 : Inv s3) by (eapply Inv_run; [exact HI2|exact Hrun3]).
  destruct (stretch_fan_out acts s2 s3 0 0 0 0 (length xs) HI2 eq_refl Hrun3 Hp3)
    as (ys' & Hlen & Hstretch & Hhanded).
  assert (ys' = ys) as ->
    by (eapply stretch_transformed; [exact Hitems|exact Hys|exact Hstretch|done]).
  destruct (Hhanded 0 _ Hrecv2) as (rc & Hrc & Hobs).
  pose proof (Hempty 0 rc Hrc) as Hq.
  assert (Hseen : seen rc = ys).
  { unfold observed in Hobs. rewrite Hq, app_nil_r in Hobs. done. }
  pose proof (inv_bound s3 HI3 0 _ Hp3) as [Hch3 _].
  assert (Hstep : run_task 0 s3 = Some (stream_ended 0 0 error s3)).
  { unfold run_task. rewrite Hp3. unfold item. rewrite Hcall.
    destruct Hend as [[-> ->]|(e & -> & He & ->)]; [done|].
    unfold raised_in_try. by rewrite He. }
  exists (acts ++ [Run 0]), (stream_ended 0 0 error s3), rc.
  split.
  { change (New_receiver maxsize :: Run 0 :: acts ++ [Run 0])
      with ([New_receiver maxsize; Run 0] ++ acts ++ [Run 0]).
    rewrite run_app, Hrun2. simpl. rewrite run_app, Hrun3. simpl.
    by rewrite Hstep. }
  split; [by rewrite new_receiver_cases, Hneg|].
  assert (Hlt : 0 < length (tasks s3)) by by eapply lookup_lt_Some.
  unfold stream_ended. rewrite Hstrategy3.
  change (_retry_strategy s2) with (_retry_strategy s0).
  destruct (next_interval (_retry_strategy s0)) as [[d|] st]; [done|]. simpl.
  set (s4 := emit ERROR (Giving_up (get_progress st) (error_str error))
               (set_strategy st s3)).
  assert (Hclosed : closed 0 (close s4) = true).
  { rewrite Hch3. apply (closed_close_eq s4), (inv_channel s3 HI3). }
  assert (Hrc4 : receiver_at 0 0 (set_pump 0 Finished (close s4)) = Some rc).
  { change (receiver_at 0 0 (close s4) = Some rc).
    by rewrite (same_receivers_close s4). }
  split; [done|]. split; [done|]. split; [done|]. split.
  { rewrite (next_of_closed 0 0 _ rc); [by rewrite Hq|done|done]. }
  split; [by apply list_lookup_insert_eq|]. split.
  { unfold running; simpl.
    pose proof (inv_one s3 HI3 0 _ Hp3 eq_refl) as Ht0.
    rewrite Ht0. by rewrite list_lookup_insert_eq. }
  split; [by rewrite Hcalls3|]. split; [done|].
  by rewrite Hlog3.
Qed.

End Broadcaster.

(** ** The scenarios of the test suite *)

(** [mock.MagicMock(spec=retry.Strategy)]: [next_interval] gives the
    scripted answers in turn and [None] once they are used up (the tests'
    [no_retry] has an empty script), the mock counts the calls it gets, and
    [copy()] returns the mock itself. *)
Record mock := {
  side_effect : list (option Q);
  next_interval_calls : nat;
  reset_calls : nat;
}.

#[export] Instance mock_strategy : Strategy mock := {|
  reset m :=
    {| side_effect := side_effect m;
       next_interval_calls := next_interval_calls m;
       reset_calls := S (reset_calls m) |};
  next_interval m :=
    (match side_effect m with
     | interval :: _ => interval
     | [] => None
     end,
     {| side_effect := tail (side_effect m);
        next_interval_calls := S (next_interval_calls m);
        reset_calls := reset_calls m |});
  get_progress _ := "mock progress"%string;
  copy m := m;
|}.

Definition mock_retry (script : list (option Q)) : mock :=
  {| side_effect := script; next_interval_calls := 0; reset_calls := 0 |}.

Definition no_retry : mock := mock_retry [].

(** [_transformer]: ["transformed_{x}"], kept as the prefix and the number. *)
Definition _transformer (x : nat) : res (string * nat) :=
  Return ("transformed_"%string, x).

Definition mock_error : exn := AioRpcError "mock grpc code" "mock details".

(** [asynciter]: the items [0 .. n-1], then the end of the stream. *)
Definition asynciter (n : nat) (i : nat) : anext nat :=
  if i <? n then Yield i else StopAsyncIteration.

(** [_ErroringAsyncIter(error, ready_event, num_successes)] *)
Definition _ErroringAsyncIter (error : exn) (num_successes : nat) (i : nat) : anext nat :=
  if i <? num_successes then Yield i else Raise error.

(** The state of a test broadcaster after [acts]. *)
Definition helper (stream : nat -> anext nat) (script : list (option Q))
    (acts : list action) : state (OutputT := string * nat) :=
  let s := init no_retry (Some (mock_retry script)) in
  default s (run (fun _ => Return stream) _transformer acts s).


(** A stream that produces two items and ends, and the states of a
    broadcaster on it: waiting for the first item with one receiver, and at
    the end of the stream. *)
Definition two_items : nat -> res (nat -> anext nat) :=
  fun _ => Return (asynciter 2).

Definition streaming_helper : state (OutputT := string * nat) :=
  helper (asynciter 2) [] [New_receiver 50; Run 0].

Definition drained_helper : state (OutputT := string * nat) :=
  helper (asynciter 2) []
    [New_receiver 50; Run 0; Run 0; Run 0; New_receiver 50; Run 0; Run 0].

Lemma fan_out_in_order_witness :
  exists ys : list (string * nat),
    length ys = 2
    /\ (forall i x, [0; 1] !! i = Some x ->
          exists y, ys !! i = Some y /\ _transformer x = Return y)
    /\ forall r rc, receiver_at 0 r streaming_helper = Some rc ->
         exists rc', receiver_at 0 r drained_helper = Some rc'
                     /\ observed rc' = observed rc ++ ys.
Proof.
  destruct (fan_out_in_order two_items _transformer no_retry (Some no_retry)
              streaming_helper 0 0 0 [0; 1]) as (Hhanded & _ & _).
  - exists [New_receiver 50; Run 0]. vm_compute. reflexivity.
  - split; [|reflexivity].
    intros [|[|i]] x Hx; simpl in Hx; simplify_eq; reflexivity.
  - vm_compute. reflexivity.
  - apply (Hhanded [Run 0; Run 0; New_receiver 50; Run 0; Run 0] drained_helper);
      vm_compute; reflexivity.
Defined.





(** A broadcaster that was stopped. *)
Definition stopped_helper : state (OutputT := string * nat) :=
  helper (asynciter 2) [] [New_receiver 50; Run 0; Stop; Stopped].

Lemma start_is_idempotent_and_resets_witness :
  running stopped_helper = false
  /\ _retry_strategy (start stopped_helper) = reset (_retry_strategy stopped_helper)
  /\ _channel (start stopped_helper) = 1
  /\ start (start stopped_helper) = start stopped_helper.
Proof.
  destruct (start_is_idempotent_and_resets two_items _transformer no_retry
              (Some no_retry) stopped_helper) as (_ & Hfresh & Hidem & _).
  - exists [New_receiver 50; Run 0; Stop; Stopped]. vm_compute. reflexivity.
  - destruct (Hfresh eq_refl) as (Hreset & _ & Hchannel & _).
    split; [reflexivity|]. split; [exact Hreset|]. split; [exact Hchannel|].
    exact Hidem.
Defined.

(** The test [test_new_receiver_after_error]: one item, then a transport
    error, no retry; the pump has given up and closed the channel. *)
Definition one_then_error : nat -> res (nat -> anext nat) :=
  fun _ => Return (_ErroringAsyncIter mock_error 1).

Definition given_up_helper : state (OutputT := string * nat) :=
  helper (_ErroringAsyncIter mock_error 1) []
    [New_receiver 50; Run 0; Run 0; Run 0; Run 0].





(** A stream whose first [__anext__] raises [ValueError], and the broadcaster
    waiting for that item. *)
Definition value_error : exn := OtherError "ValueError".

Definition broken : nat -> res (nat -> anext nat) :=
  fun _ => Return (_ErroringAsyncIter value_error 0).

Definition broken_helper : state (OutputT := string * nat) :=
  helper (_ErroringAsyncIter value_error 0) [] [New_receiver 50; Run 0].




(** C2 as the specification states it fails: the stream raises [ValueError]
    while the pump iterates, and the pump neither retries nor closes the
    channel; the task ends with the error. *)
Lemma other_errors_escape_the_pump :
  ~ (forall s t sender k i e s',
       reachable broken _transformer no_retry (Some no_retry) s ->
       tasks s !! t = Some (Streaming sender k i) ->
       item broken k i = Raise e ->
       run_task broken _transformer t s = Some s' ->
       (exists d, tasks s' !! t = Some (Sleeping sender d))
       \/ (tasks s' !! t = Some Finished /\ closed sender s' = true)).
Proof.
  intros Hclaim.
  destruct (Hclaim broken_helper 0 0 0 0 value_error
              (set_pump 0 (Failed value_error) broken_helper))
    as [[d Hd]|[Hf _]].
  - exists [New_receiver 50; Run 0]. vm_compute. reflexivity.
  - reflexivity.
  - reflexivity.
  - reflexivity.
  - discriminate Hd.
  - discriminate Hf.
Qed.


(** A stream that ends at once, with a strategy that does not retry. *)
Definition nothing : nat -> res (nat -> anext nat) :=
  fun _ => Return (asynciter 0).

Definition ending_helper : state (OutputT := string * nat) :=
  helper (asynciter 0) [] [New_receiver 50; Run 0].

Lemma exhausted_strategy_closes_the_channel_witness :
  exists s',
    run_task nothing _transformer 0 ending_helper = Some s'
    /\ tasks s' = [Finished]
    /\ closed 0 s' = true
    /\ calls s' = 1
    /\ log s' = [(INFO, Starting_to_stream);
                 (ERROR, Giving_up "mock progress" Stream_exhausted)].
Proof.
  destruct (exhausted_strategy_closes_the_channel nothing _transformer no_retry
              (Some no_retry) ending_helper 0 0 0 0 None
              (snd (next_interval (_retry_strategy ending_helper))))
    as (s' & Hrun & Htasks & Hclosed & Hcalls & Hlog & _).
  - exists [New_receiver 50; Run 0]. vm_compute. reflexivity.
  - reflexivity.
  - left. split; reflexivity.
  - reflexivity.
  - exists s'. split; [exact Hrun|]. split; [exact Htasks|].
    split; [exact Hclosed|]. split; [exact Hcalls|exact Hlog].
Defined.

(** The test [test_streaming_error] with no success: a transport error at
    once, no retry. *)
Definition failing : nat -> res (nat -> anext nat) :=
  fun _ => Return (_ErroringAsyncIter mock_error 0).

Definition failing_helper : state (OutputT := string * nat) :=
  helper (_ErroringAsyncIter mock_error 0) [] [New_receiver 50; Run 0].

Lemma transport_errors_stay_in_the_pump_witness :
  exists s',
    run_task failing _transformer 0 failing_helper = Some s'
    /\ tasks s' = [Finished]
    /\ closed 0 s' = true.
Proof.
  destruct (transport_errors_stay_in_the_pump failing _transformer no_retry
              (Some no_retry) failing_helper 0 0 0 0 mock_error)
    as (s' & Hrun & _ & _ & [(d & Hd & _)|(_ & Htasks & _ & Hclosed)]).
  - exists [New_receiver 50; Run 0]. vm_compute. reflexivity.
  - reflexivity.
  - reflexivity.
  - reflexivity.
  - discriminate Hd.
  - exists s'. split; [exact Hrun|]. split; [exact Htasks|exact Hclosed].
Defined.

(** The test [test_retry_next_interval_zero]: the strategy answers [0] and
    then [None]; the broadcaster has one receiver and its pump has not run
    yet. *)
Definition zero_then_none : list (option Q) := [Some 0%Q; None].

Definition fresh_helper : state (OutputT := string * nat) :=
  helper (_ErroringAsyncIter mock_error 0) zero_then_none [New_receiver 50].

Lemma zero_interval_is_an_immediate_retry_witness :
  exists s4,
    run failing _transformer [Run 0; Run 0; Run 0; Run 0] fresh_helper = Some s4
    /\ tasks s4 = [Finished]
    /\ closed 0 s4 = true
    /\ calls s4 = 2
    /\ next_interval_calls (_retry_strategy s4) = 2
    /\ receiver_at 0 0 s4 = Some {| limit := 50; queue := []; seen := [] |}
    /\ log s4 = [(INFO, Starting_to_stream);
                 (WARNING, Retrying "mock progress" 0%Q (Error mock_error));
                 (INFO, Starting_to_stream);
                 (ERROR, Giving_up "mock progress" (Error mock_error))].
Proof.
  destruct (zero_interval_is_an_immediate_retry failing _transformer no_retry
              (Some (mock_retry zero_then_none)) fresh_helper 0
              mock_error mock_error
              {| side_effect := [None]; next_interval_calls := 1; reset_calls := 1 |}
              {| side_effect := []; next_interval_calls := 2; reset_calls := 1 |}
              (_ErroringAsyncIter mock_error 0) (_ErroringAsyncIter mock_error 0))
    as (s2 & s4 & Hrun2 & _ & _ & _ & _ & Hrun4 & Htasks & Hclosed & Hcalls
        & Hstrategy & Hsame & Hlog & _).
  - exists [New_receiver 50]. vm_compute. reflexivity.
  - reflexivity.
  - reflexivity.
  - reflexivity.
  - reflexivity.
  - reflexivity.
  - reflexivity.
  - reflexivity.
  - reflexivity.
  - reflexivity.
  - exists s4. split.
    { change [Run 0; Run 0; Run 0; Run 0] with ([Run 0; Run 0] ++ [Run 0; Run 0]).
      rewrite run_app, Hrun2. exact Hrun4. }
    split; [exact Htasks|]. split; [exact Hclosed|]. split; [exact Hcalls|].
    split; [by rewrite Hstrategy|]. split; [by rewrite Hsame|exact Hlog].
Defined.

(** A broadcaster on the stream of two items whose pump has sent the first
    item to the one receiver and waits for the second. *)
Definition late_helper : state (OutputT := string * nat) :=
  helper (asynciter 2) [] [New_receiver 50; Run 0; Run 0; Run 0].

Lemma a_late_receiver_gets_the_rest_witness :
  exists (ys : list (string * nat)) rc,
    2 = 1 + length ys
    /\ (forall n y, ys !! n = Some y ->
          exists x, item two_items 0 (1 + n) = Yield x /\ _transformer x = Return y)
    /\ receiver_at 0 1 (helper (asynciter 2) []
         [New_receiver 50; Run 0; Run 0; Run 0; New_receiver 50; Run 0; Run 0])
       = Some rc
    /\ observed rc = ys
    /\ forall r' rc0,
         receiver_at 0 r' (snd (new_receiver 50 late_helper)) = Some rc0 ->
         exists rc',
           receiver_at 0 r' (helper (asynciter 2) []
             [New_receiver 50; Run 0; Run 0; Run 0; New_receiver 50; Run 0; Run 0])
           = Some rc'
           /\ observed rc' = observed rc0 ++ ys.
Proof.
  apply (a_late_receiver_gets_the_rest two_items _transformer no_retry
           (Some no_retry) 50 late_helper 0 1
           (snd (new_receiver 50 late_helper)) 0 0 1 [Run 0; Run 0]).
  - exists [New_receiver 50; Run 0; Run 0; Run 0]. vm_compute. reflexivity.
  - vm_compute. reflexivity.
  - vm_compute. reflexivity.
  - vm_compute. reflexivity.
  - vm_compute. reflexivity.
Defined.

Lemma items_arrive_in_stream_order_witness :
  exists ps : list (nat * nat),
    length ps = 2
    /\ (forall n p y,
          ps !! n = Some p ->
          [("transformed_"%string, 0); ("transformed_"%string, 1)] !! n = Some y ->
          p.1 < 1
          /\ exists x, item two_items p.1 p.2 = Yield x /\ _transformer x = Return y)
    /\ (forall a b p q, ps !! a = Some p -> ps !! b = Some q -> a < b ->
          p.1 < q.1 \/ (p.1 = q.1 /\ p.2 < q.2)).
Proof.
  apply (items_arrive_in_stream_order two_items _transformer no_retry
           (Some no_retry) drained_helper 0 0
           {| limit := 50; queue := [("transformed_"%string, 0);
                                     ("transformed_"%string, 1)];
              seen := [] |}).
  - exists [New_receiver 50; Run 0; Run 0; Run 0; New_receiver 50; Run 0; Run 0]. vm_compute. reflexivity.
  - vm_compute. reflexivity.
Defined.

Lemma a_restart_leaves_the_old_receivers_behind_witness :
  (forall c r rc, receiver_at c r stopped_helper = Some rc ->
     exists rc',
       receiver_at c r (helper (asynciter 2) []
         [New_receiver 50; Run 0; Stop; Stopped; Start; New_receiver 50;
          Run 1; Run 1; Run 1])
       = Some rc'
       /\ observed rc' = observed rc)
  /\ receiver_at 1 0 (helper (asynciter 2) []
       [New_receiver 50; Run 0; Stop; Stopped; Start; New_receiver 50;
        Run 1; Run 1; Run 1])
     = Some {| limit := 50; queue := [("transformed_"%string, 0)]; seen := [] |}.
Proof.
  destruct (a_restart_leaves_the_old_receivers_behind two_items _transformer
              no_retry (Some no_retry) stopped_helper
              [Start; New_receiver 50; Run 1; Run 1; Run 1]
              (helper (asynciter 2) []
                 [New_receiver 50; Run 0; Stop; Stopped; Start; New_receiver 50;
                  Run 1; Run 1; Run 1]))
    as (Hold & _).
  - exists [New_receiver 50; Run 0; Stop; Stopped]. vm_compute. reflexivity.
  - vm_compute. reflexivity.
  - vm_compute. reflexivity.
  - split; [exact Hold|reflexivity].
Defined.

(** The broadcaster whose pump has ended with [ValueError]. *)
Definition crashed_helper : state (OutputT := string * nat) :=
  helper (_ErroringAsyncIter value_error 0) [] [New_receiver 50; Run 0; Run 0].

Lemma a_receiver_of_an_ended_pump_waits_for_ever_witness :
  tasks crashed_helper = [Failed value_error]
  /\ fst (new_receiver 50 crashed_helper) = Return (0, 1)
  /\ tasks (snd (new_receiver 50 crashed_helper)) = tasks crashed_helper
  /\ log (snd (new_receiver 50 crashed_helper)) = log crashed_helper
  /\ forall acts s'',
       run broken _transformer acts (snd (new_receiver 50 crashed_helper)) = Some s'' ->
       closed 0 s'' = false /\ next_of 0 1 s'' = Some Waiting.
Proof.
  destruct (a_receiver_of_an_ended_pump_waits_for_ever broken _transformer
              no_retry (Some no_retry) crashed_helper 50 0 1
              (snd (new_receiver 50 crashed_helper)))
    as (_ & Htasks & Hlog & _ & _ & Hwaits).
  - exists [New_receiver 50; Run 0; Run 0]. vm_compute. reflexivity.
  - vm_compute. reflexivity.
  - vm_compute. reflexivity.
  - vm_compute. reflexivity.
  - vm_compute. reflexivity.
  - split; [reflexivity|]. split; [reflexivity|]. split; [exact Htasks|].
    split; [exact Hlog|exact Hwaits].
Defined.

(** A stream method that raises the transport error when it is called. *)
Definition refusing : nat -> res (nat -> anext nat) :=
  fun _ => Raises mock_error.

Definition new_helper : state (OutputT := string * nat) :=
  init no_retry (Some no_retry).

Lemma a_stream_call_that_raises_is_a_failed_attempt_witness :
  exists s',
    run_task refusing _transformer 0 new_helper = Some s'
    /\ calls s' = 1
    /\ tasks s' = [Finished]
    /\ log s' = [(INFO, Starting_to_stream);
                 (ERROR, Giving_up "mock progress" (Error mock_error))]
    /\ closed 0 s' = true.
Proof.
  destruct (a_stream_call_that_raises_is_a_failed_attempt refusing _transformer
              no_retry (Some no_retry) new_helper 0 Created mock_error)
    as (s' & Hrun & Hcalls & _ & Hcaught & _).
  - exists []. vm_compute. reflexivity.
  - vm_compute. reflexivity.
  - left. reflexivity.
  - vm_compute. reflexivity.
  - destruct (Hcaught eq_refl) as (_ & [(d & Hd & _)|(_ & Htasks & Hlog & Hclosed)]).
    + discriminate Hd.
    + exists s'. split; [exact Hrun|]. split; [exact Hcalls|].
      split; [exact Htasks|]. split; [exact Hlog|exact Hclosed].
Defined.

(** A transformer that raises the transport error on the item [1], and a
    broadcaster with it whose pump waits for that item. *)
Definition failing_transformer (x : nat) : res (string * nat) :=
  if x =? 1 then Raises mock_error else _transformer x.

Definition picky_helper : state (OutputT := string * nat) :=
  default new_helper
    (run two_items failing_transformer [New_receiver 50; Run 0; Run 0; Run 0]
       new_helper).

Lemma a_transport_error_from_transform_ends_the_stream_witness :
  exists s',
    run_task two_items failing_transformer 0 picky_helper = Some s'
    /\ tasks s' = [Finished]
    /\ closed 0 s' = true
    /\ receiver_at 0 0 s'
       = Some {| limit := 50; queue := [("transformed_"%string, 0)]; seen := [] |}.
Proof.
  destruct (a_transport_error_from_transform_ends_the_stream two_items
              failing_transformer no_retry (Some no_retry) picky_helper
              0 0 0 1 1 mock_error)
    as (s' & Hrun & Hsame & _ & _ & [(d & Hd & _)|(_ & Htasks & _ & Hclosed)] & _).
  - exists [New_receiver 50; Run 0; Run 0; Run 0]. vm_compute. reflexivity.
  - vm_compute. reflexivity.
  - vm_compute. reflexivity.
  - vm_compute. reflexivity.
  - vm_compute. reflexivity.
  - discriminate Hd.
  - exists s'. split; [exact Hrun|]. split; [exact Htasks|].
    split; [exact Hclosed|]. by rewrite Hsame.
Defined.

Lemma the_log_accounts_for_every_attempt_witness :
  count is_start (log given_up_helper) = 1
  /\ count is_end (log given_up_helper) <= 1.
Proof.
  destruct (the_log_accounts_for_every_attempt one_then_error _transformer
              no_retry (Some no_retry) given_up_helper) as (Hstart & Hend & _).
  - exists [New_receiver 50; Run 0; Run 0; Run 0; Run 0]. vm_compute. reflexivity.
  - split; [exact Hstart|exact Hend].
Defined.


Lemma a_stream_without_retry_is_delivered_and_ended_witness :
  exists acts s rc,
    run two_items _transformer (New_receiver 50 :: Run 0 :: acts)
      (init no_retry (Some no_retry)) = Some s
    /\ receiver_at 0 0 s = Some rc
    /\ seen rc = [("transformed_"%string, 0); ("transformed_"%string, 1)]
    /\ queue rc = []
    /\ next_of 0 0 s = Some End_of_stream
    /\ calls s = 1
    /\ log s = [(INFO, Starting_to_stream);
                (ERROR, Giving_up "mock progress" Stream_exhausted)].
Proof.
  destruct (a_stream_without_retry_is_delivered_and_ended two_items _transformer
              no_retry (Some no_retry) 50 (asynciter 2) [0; 1]
              [("transformed_"%string, 0); ("transformed_"%string, 1)] None)
    as (acts & s & rc & Hrun & _ & Hrc & Hseen & Hqueue & Hnext & _ & _ & Hcalls
        & _ & Hlog).
  - reflexivity.
  - reflexivity.
  - reflexivity.
  - intros [|[|j]] x Hx; simpl in Hx; simplify_eq; reflexivity.
  - left. split; reflexivity.
  - repeat constructor.
  - exists acts, s, rc. split; [exact Hrun|]. split; [exact Hrc|].
    split; [exact Hseen|]. split; [exact Hqueue|]. split; [exact Hnext|].
    split; [exact Hcalls|exact Hlog].
Defined.

End Streaming.
